(** * kubeswitch: contexts, namespaces, sessions and the purge of session files

    A shallow embedding of package [kubeswitch] (type [Kubeswitch] with
    [ListContexts], [SetContext], [setupSession], [ListNamespaces],
    [SetNamespace], [IsActive], [Purge], [writeConfig]) and of the older
    [KubeSwitch] variants of the same file.

    Go strings are byte sequences: they are modelled by [string] (a list of
    bytes).  The process environment, the file system, the clock and the
    standard output are fields of a [World] record that every operation
    threads explicitly.

    The methods that write the configuration come in two renderings.  The
    definitions of the package take a write as one step that succeeds or
    fails at the open, which is what it is for a session file in the
    directory that [init] has made.  Module [Disk] has the same methods with
    the steps of [clientcmd.WriteToFile] and [ioutil.WriteFile] spelled out:
    the directory made when it is missing, the bytes arriving in pieces, and
    the failure of each step.  [Disk_methods_agree] relates the two. *)

From Stdlib Require Import ZArith Lia Ascii String.
From stdpp Require Import base option list gmap strings sorting pretty.

Local Open Scope Z_scope.
Local Open Scope string_scope.

(** ** Machine integers *)

(** Go's [int] and [int64] on the 64-bit targets the tool is built for:
    two's complement wrap-around of a mathematical integer. *)
Definition wrap64 (z : Z) : Z := (z + 2 ^ 63) mod 2 ^ 64 - 2 ^ 63.

Definition int64_range (z : Z) : Prop := - 2 ^ 63 <= z < 2 ^ 63.

(** ** Strings *)

(** [strings.ToUpper], byte by byte: on a string of ASCII bytes Go takes
    exactly this path ([c -= 'a' - 'A'] for ['a' <= c <= 'z']).  A string with
    a byte [>= 0x80] is mapped rune by rune through [unicode.ToUpper] in Go;
    here such bytes are kept.  The only use in the program compares the
    result with ["TRUE"]: no rune outside ASCII has T, R, U or E as its upper
    case, and here a kept byte [>= 0x80] differs from every byte of ["TRUE"],
    so both sides of that comparison agree on every input. *)
Definition upper_byte (c : ascii) : ascii :=
  let n := N_of_ascii c in
  if ((97 <=? n) && (n <=? 122))%N then ascii_of_N (n - 32) else c.

Fixpoint ToUpper (s : string) : string :=
  match s with
  | EmptyString => EmptyString
  | String c s' => String (upper_byte c) (ToUpper s')
  end.

(** [sort.Strings]: ascending byte-wise lexicographic order.  The order is
    total and antisymmetric, so the sorted arrangement of a list is unique and
    any correct sorting algorithm returns it. *)
Definition sort_Strings (l : list string) : list string :=
  merge_sort String.le l.

(** ** Process environment *)

(** [EnvVarActive] is the variable that tells whether the shell was started by
    kubeswitch; [EnvVarConfig] points to the session's kube config. *)
Definition EnvVarActive : string := "KUBESWITCH_ACTIVE".
Definition EnvVarConfig : string := "KUBECONFIG".

(** [os.Getenv]: the value, or the empty string when the variable is unset. *)
Definition os_Getenv (env : gmap string string) (key : string) : string :=
  default "" (env !! key).

(** [IsActive]: true inside a kubeswitch session. *)
Definition IsActive (env : gmap string string) : bool :=
  if decide (ToUpper (os_Getenv env EnvVarActive) = "TRUE") then true else false.

(** ** The kube configuration (package [clientcmd/api]) *)

Module api.
(** [api.Context]: cluster and user references and the default namespace. *)
Record Context : Type := mkContext {
  Cluster : string;
  AuthInfo : string;
  Namespace : string;
}.

(** [api.Config].  [Contexts] is a Go map from context name to [*Context];
    the pointers of a loaded configuration are pairwise distinct, so the
    map is modelled by value.  Clusters and users are passed through
    unmodified and carried as opaque payloads. *)
Record Config : Type := mkConfig {
  Clusters : gmap string string;
  AuthInfos : gmap string string;
  Contexts : gmap string Context;
  CurrentContext : string;
}.

Definition set_Namespace (ns : string) (c : Context) : Context :=
  {| Cluster := Cluster c; AuthInfo := AuthInfo c; Namespace := ns |}.

Definition set_CurrentContext (ctx : string) (c : Config) : Config :=
  {| Clusters := Clusters c; AuthInfos := AuthInfos c;
     Contexts := Contexts c; CurrentContext := ctx |}.

Definition set_Contexts (m : gmap string Context) (c : Config) : Config :=
  {| Clusters := Clusters c; AuthInfos := AuthInfos c;
     Contexts := m; CurrentContext := CurrentContext c |}.
End api.

(** The versioned configuration (package [clientcmd/api/v1]) that the oldest
    variant of the program unmarshals: the contexts are a list of named
    entries. *)
Module apiv1.
Record NamedContext : Type := mkNamedContext {
  Name : string;
  Context : api.Context;
}.

Record Config : Type := mkConfig {
  Clusters : list (string * string);
  AuthInfos : list (string * string);
  Contexts : list NamedContext;
  CurrentContext : string;
}.
End apiv1.

(** ** Namespaces reported by the cluster (package [core/v1]) *)

Module corev1.
Record Namespace : Type := mkNamespace { Name : string }.
Record NamespaceList : Type := mkNamespaceList { Items : list Namespace }.
End corev1.

(** ** Errors *)

(** Go's [error] values that the program creates or receives: the message of
    [fmt.Errorf], an [*os.PathError] of a failed file operation, and the
    [syscall.Errno] of a failed [exec].  A nil [error] is [None]. *)
Inductive error : Type :=
| errorString (msg : string)
| PathError (op path : string)
| Errno (call : string).

(** ** The world outside the process *)

(** A node of the file system: its bytes and its last-modified time, in
    nanoseconds since the Unix epoch. *)
Record File : Type := mkFile { data : string; modTime : Z }.

(** The calls the process makes to the operating system, in order. *)
Inductive Event : Type :=
| EvOpen (path : string)                 (* open(O_WRONLY|O_CREATE|O_TRUNC) *)
| EvWrite (path bytes : string)
| EvClose (path : string)
| EvMkdirAll (dir : string)
| EvSetenv (key value : string)
| EvExec (argv0 : string) (argv : list string) (envv : gmap string string)
| EvReadDir (dir : string)
| EvRemove (path : string)
| EvPrintln (e : error).

(** [files] maps an absolute path to its node.  [home] is the result of
    [homedir.Dir()], which the package's [init] has already obtained (it exits
    the process otherwise) and which the library caches.  The four oracles say
    which calls the operating system lets succeed.  [trace] logs every call. *)
Record World : Type := mkWorld {
  environ : gmap string string;
  files : gmap string File;
  clock : Z;
  home : string;
  writable : string → bool;
  listable : string → bool;
  removable : string → bool;
  executable : string → bool;
  trace : list Event;
}.

Definition with_environ (e : gmap string string) (w : World) : World :=
  {| environ := e; files := files w; clock := clock w; home := home w;
     writable := writable w; listable := listable w; removable := removable w;
     executable := executable w; trace := trace w |}.

Definition with_files (fs : gmap string File) (w : World) : World :=
  {| environ := environ w; files := fs; clock := clock w; home := home w;
     writable := writable w; listable := listable w; removable := removable w;
     executable := executable w; trace := trace w |}.

Definition with_clock (t : Z) (w : World) : World :=
  {| environ := environ w; files := files w; clock := t; home := home w;
     writable := writable w; listable := listable w; removable := removable w;
     executable := executable w; trace := trace w |}.

Definition log (e : Event) (w : World) : World :=
  {| environ := environ w; files := files w; clock := clock w; home := home w;
     writable := writable w; listable := listable w; removable := removable w;
     executable := executable w; trace := trace w ++ [e] |}.

(** ** Control flow *)

(** How a Go function call ends: it returns a value, or [syscall.Exec] has
    replaced the process image and nothing of the caller runs any more, or a
    nil pointer was dereferenced. *)
Inductive Outcome (A : Type) : Type :=
| Returned (a : A)
| Replaced
| Panicked.
Arguments Returned {A} a.
Arguments Replaced {A}.
Arguments Panicked {A}.

Definition M (A : Type) : Type := World → Outcome A * World.

Definition ret {A} (a : A) : M A := λ w, (Returned a, w).

Definition bind {A B} (c : M A) (k : A → M B) : M B := λ w,
  match c w with
  | (Returned a, w') => k a w'
  | (Replaced, w') => (Replaced, w')
  | (Panicked, w') => (Panicked, w')
  end.

Notation "'do' x <- c ; k" := (bind c (λ x, k))
  (at level 10, x name, c at level 100, k at level 200, only parsing).
Notation "'run' c ; k" := (bind c (λ _, k))
  (at level 10, c at level 100, k at level 200, only parsing).

(** Go's [for _, x := range l { body }]. *)
Fixpoint for_range {A} (l : list A) (body : A → M unit) : M unit :=
  match l with
  | [] => ret tt
  | x :: l' => run body x; for_range l' body
  end.

(** ** Library functions the program calls *)

(** Functions of Go's standard library and of client-go whose results the
    program only passes on: the YAML serialiser [clientcmd.Write], the JSON
    serialiser [json.Marshal] of the older variant, and the calendar
    arithmetic [Time.AddDate] (years, months, days), which works in the
    process's local time zone. *)
Class Libraries : Type := {
  clientcmd_Write : api.Config → string + error;
  json_Marshal : apiv1.Config → string + error;
  time_AddDate : Z → Z → Z → Z → Z;
}.

(** [Time.Before] on instants, [Time.UnixNano] (computed in [int64]) and the
    [%d] verb of [fmt.Sprintf]. *)
Definition time_Before (t u : Z) : bool := (t <? u)%Z.
Definition time_UnixNano (t : Z) : Z := wrap64 t.
Definition fmt_d (z : Z) : string := pretty z.

(** ** System calls *)

Definition time_Now : M Z := λ w, (Returned (clock w), w).

Definition Getenv (key : string) : M string := λ w,
  (Returned (os_Getenv (environ w) key), w).

Definition Setenv (key value : string) : M unit := λ w,
  (Returned tt, log (EvSetenv key value) (with_environ (<[key := value]> (environ w)) w)).

Definition syscall_Environ : M (gmap string string) := λ w,
  (Returned (environ w), w).

(** [syscall.Exec]: does not return when it succeeds. *)
Definition syscall_Exec (argv0 : string) (argv : list string)
    (envv : gmap string string) : M (option error) := λ w,
  let w' := log (EvExec argv0 argv envv) w in
  if executable w argv0 then (Replaced, w')
  else (Returned (Some (Errno "exec")), w').

(** The three steps of [ioutil.WriteFile] on the destination itself: the file
    is opened with [O_WRONLY|O_CREATE|O_TRUNC], which creates it or empties
    it, the bytes are written, and the file is closed. *)
Definition sys_open_trunc (path : string) (w : World) : World :=
  log (EvOpen path) (with_files (<[path := mkFile "" (clock w)]> (files w)) w).

Definition sys_write (path bytes : string) (w : World) : World :=
  let old := default "" (data <$> files w !! path) in
  log (EvWrite path bytes)
      (with_files (<[path := mkFile (old ++ bytes) (clock w)]> (files w)) w).

Definition sys_close (path : string) (w : World) : World := log (EvClose path) w.

(** [ioutil.WriteFile] as seen when it is over, for a file that is written
    to its end and closed once it is open: [writable] says whether the write
    succeeds.  [Disk.WriteFile_run] below is the call step by step, with the
    ways in which it can stop. *)
Definition ioutil_WriteFile (path bytes : string) : M (option error) := λ w,
  if writable w path
  then (Returned None, sys_close path (sys_write path bytes (sys_open_trunc path w)))
  else (Returned (Some (PathError "open" path)), log (EvOpen path) w).

(** [os.Remove]. *)
Definition os_Remove (path : string) : M (option error) := λ w,
  let w' := log (EvRemove path) w in
  match files w !! path with
  | Some _ =>
      if removable w path
      then (Returned None, with_files (delete path (files w)) w')
      else (Returned (Some (PathError "remove" path)), w')
  | None => (Returned (Some (PathError "remove" path)), w')
  end.

Definition fmt_Println (e : error) : M unit := λ w,
  (Returned tt, log (EvPrintln e) w).

(** ** Directory listing *)

(** [os.FileInfo], as far as the program reads it. *)
Record FileInfo : Type := mkFileInfo { Name : string; ModTime : Z }.

Fixpoint strip_prefix (p s : string) : option string :=
  match p, s with
  | EmptyString, _ => Some s
  | String a p', String b s' => if decide (a = b) then strip_prefix p' s' else None
  | String _ _, EmptyString => None
  end.

Fixpoint has_slash (s : string) : bool :=
  match s with
  | EmptyString => false
  | String c s' => if decide (c = "/"%char) then true else has_slash s'
  end.

(** The name under which [path] is an entry of directory [dir]: [path] is
    [dir/name] and [name] is one non-empty path component. *)
Definition entry_name (dir path : string) : option string :=
  match strip_prefix (dir ++ "/") path with
  | Some name =>
      if decide (name = "") then None
      else if has_slash name then None else Some name
  | None => None
  end.

Definition dir_entries (dir : string) (fs : gmap string File) : list FileInfo :=
  omap (λ pf : string * File,
          match entry_name dir pf.1 with
          | Some name => Some (mkFileInfo name (modTime pf.2))
          | None => None
          end)
       (map_to_list fs).

Definition by_Name (a b : FileInfo) : Prop := String.le (Name a) (Name b).

Global Instance by_Name_dec : RelDecision by_Name.
Proof. intros a b. unfold by_Name. apply _. Defined.

(** [ioutil.ReadDir]: the entries sorted by file name; on an error the list
    is nil. *)
Definition ioutil_ReadDir (dir : string) : M (list FileInfo * option error) := λ w,
  let w' := log (EvReadDir dir) w in
  if listable w dir
  then (Returned (merge_sort by_Name (dir_entries dir (files w)), None), w')
  else (Returned ([], Some (PathError "open" dir)), w').

(** ** Package [kubeswitch] *)

(** [Kubeswitch] holds the loaded kube config and the namespaces loaded for
    the current context.  [config] is never nil after [New]; [namespaces] is
    nil ([None]) until [LoadNamespaces] has run. *)
Record Kubeswitch : Type := mkKubeswitch {
  config : api.Config;
  namespaces : option corev1.NamespaceList;
}.

(** What a method call leaves behind: the receiver as mutated, how the call
    ended, and the world. *)
Record Call : Type := mkCall {
  receiver : Kubeswitch;
  result : Outcome (option error);
  after : World;
}.

Definition call (k : Kubeswitch) (c : M (option error)) (w : World) : Call :=
  mkCall k (c w).1 (c w).2.

(** [kubeDir] is the default kube folder; [sessionDir] stores the copied
    session config files. *)
Definition kubeDir : M string := λ w, (Returned (home w ++ "/.kube"), w).

Definition sessionDir : M string := do d <- kubeDir; ret (d ++ "/tmp").

(** The loop [for _, c := range l { if x == c { return true } }; return false]. *)
Fixpoint contains (x : string) (l : list string) : bool :=
  match l with
  | [] => false
  | c :: l' => if decide (x = c) then true else contains x l'
  end.

(** The same loop over [k.namespaces.Items], comparing [n.Name]. *)
Fixpoint contains_Name (ns : string) (l : list corev1.Namespace) : bool :=
  match l with
  | [] => false
  | n :: l' => if decide (corev1.Name n = ns) then true else contains_Name ns l'
  end.

Section Program.
Context `{Libraries}.

(** [ListContexts]: the keys of the map, in the order the iteration yields
    them, then sorted. *)
Definition ListContexts (k : Kubeswitch) : list string :=
  sort_Strings (map_to_list (api.Contexts (config k))).*1.

Definition IsValidContext (k : Kubeswitch) (ctx : string) : bool :=
  contains ctx (ListContexts k).

(** [clientcmd.WriteToFile] for a destination whose directory exists, as
    that of a session file does: serialise, then write the destination with
    [ioutil.WriteFile].  [Disk.WriteToFile_run] below is the call in full,
    which first makes the directory when it is missing. *)
Definition clientcmd_WriteToFile (cfg : api.Config) (path : string)
    : M (option error) :=
  match clientcmd_Write cfg with
  | inl content => ioutil_WriteFile path content
  | inr e => ret (Some e)
  end.

(** [writeConfig] writes the config to disk. *)
Definition writeConfig (k : Kubeswitch) (path : string) : M (option error) :=
  do err <- clientcmd_WriteToFile (config k) path;
  match err with
  | Some e => ret (Some e)
  | None => ret None
  end.

(** [setupSession]: inside a session, write the config to the path in
    [KUBECONFIG]; otherwise write it to a timestamped file in the session
    folder, point the environment at it and run a shell. *)
Definition setupSession (k : Kubeswitch) : M (option error) :=
  do env <- syscall_Environ;
  if IsActive env then
    do path <- Getenv EnvVarConfig;
    do err <- writeConfig k path;
    match err with
    | Some e => ret (Some e)
    | None => ret None
    end
  else
    do now <- time_Now;
    do dir <- sessionDir;
    let kubePath := dir ++ "/config_" ++ fmt_d (time_UnixNano now) in
    do err <- writeConfig k kubePath;
    match err with
    | Some e => ret (Some e)
    | None =>
        run Setenv EnvVarActive "TRUE";
        run Setenv EnvVarConfig kubePath;
        do sh0 <- Getenv "SHELL";
        do sh1 <- Getenv "SHELL";
        do envv <- syscall_Environ;
        run syscall_Exec sh0 [sh1] envv;
        ret None
    end.

(** [SetContext] sets [ctx] as the current context. *)
Definition SetContext (k : Kubeswitch) (ctx : string) (w : World) : Call :=
  if negb (IsValidContext k ctx)
  then mkCall k (Returned (Some (errorString ("invalid context, " ++ ctx)))) w
  else
    let k' := mkKubeswitch (api.set_CurrentContext ctx (config k)) (namespaces k) in
    call k' (do err <- setupSession k';
             match err with
             | Some e => ret (Some e)
             | None => ret None
             end) w.

(** [ListNamespaces]: the names of the loaded namespaces, sorted.  [None]
    is the nil-pointer panic of [k.namespaces.Items]. *)
Definition ListNamespaces (k : Kubeswitch) : option (list string) :=
  match namespaces k with
  | Some nl => Some (sort_Strings (corev1.Name <$> corev1.Items nl))
  | None => None
  end.

Definition IsValidNamespace (k : Kubeswitch) (ns : string) : option bool :=
  match namespaces k with
  | Some nl => Some (contains_Name ns (corev1.Items nl))
  | None => None
  end.

(** The loop of [SetNamespace]: every entry of the map is visited, and the
    one whose name is the current context gets the namespace (the map holds
    pointers, so the assignment reaches the stored context). *)
Definition set_default_namespace (ns : string) (cfg : api.Config) : api.Config :=
  api.set_Contexts
    (map_imap (λ name ctx,
                 Some (if decide (name = api.CurrentContext cfg)
                       then api.set_Namespace ns ctx else ctx))
              (api.Contexts cfg))
    cfg.

(** [SetNamespace] sets the default namespace of the current context. *)
Definition SetNamespace (k : Kubeswitch) (ns : string) (w : World) : Call :=
  match IsValidNamespace k ns with
  | None => mkCall k Panicked w
  | Some false =>
      mkCall k (Returned (Some (errorString ("invalid namespace, " ++ ns)))) w
  | Some true =>
      let k' := mkKubeswitch (set_default_namespace ns (config k)) (namespaces k) in
      call k' (do err <- setupSession k';
               match err with
               | Some e => ret (Some e)
               | None => ret None
               end) w
  end.

(** The cutoff of [Purge]: [now.AddDate(0, 0, days*-1)], the product taken
    in Go's [int]. *)
Definition delTime (now days : Z) : Z :=
  time_AddDate now 0 0 (wrap64 (days * -1)).

(** The body of the loop of [Purge], for the entry [i]. *)
Definition purge_body (del : Z) (i : FileInfo) : M unit :=
  if time_Before (ModTime i) del then
    do dir' <- sessionDir;
    do err <- os_Remove (dir' ++ "/" ++ Name i);
    match err with
    | Some e => fmt_Println e
    | None => ret tt
    end
  else ret tt.

(** [Purge] deletes the temporary session files older than [days]. *)
Definition Purge (days : Z) : M unit :=
  do now <- time_Now;
  let del := delTime now days in
  do dir <- sessionDir;
  do listing <- ioutil_ReadDir dir;
  for_range listing.1 (purge_body del).
End Program.

(** ** The write in full *)

(** [ioutil_WriteFile] and [clientcmd_WriteToFile] above are the two calls on
    a destination whose directory exists and whose bytes, once the file is
    open, all reach it.  The session directory is such a place: the package's
    [init] creates it or ends the process.  The path in [KUBECONFIG] can be
    any path, and a write can stop half way.  What follows are the calls with
    every step the libraries take. *)

(** [filepath.Dir], and what the operating system does beyond letting a file
    be opened: whether [os.MkdirAll] of a directory is stopped (after how many
    directories made), whether [Write] to a file is stopped (after how many
    bytes), in pieces of which sizes the written bytes reach the file, where
    a reader can see them, and whether [Close] fails. *)
Class FileSystem : Type := {
  filepath_Dir : string → string;
  mkdir_stops : string → option nat;
  write_stops : string → option nat;
  write_pieces : string → list nat;
  close_fails : string → bool;
}.

(** The first [n] bytes of [s]. *)
Fixpoint string_take (n : nat) (s : string) : string :=
  match n, s with
  | S n', String c s' => String c (string_take n' s')
  | _, _ => ""
  end.

Fixpoint running_totals (acc : nat) (l : list nat) : list nat :=
  match l with
  | [] => []
  | n :: l' => (acc + n)%nat :: running_totals (acc + n)%nat l'
  end.

(** What the file holds after each piece of [done] has reached it; the last
    is all of [done]. *)
Definition piece_contents (pieces : list nat) (done : string) : list string :=
  (((λ n, string_take n done) <$> running_totals 0 pieces) ++ [done])%list.

(** The directories above the rest [s] of a path whose part read so far is
    [pre], from the top. *)
Fixpoint dirs_above (pre s : string) : list string :=
  match s with
  | EmptyString => []
  | String c s' =>
      ((if decide (c = "/"%char)
        then (if decide (pre = "") then [] else [pre])
        else [])
       ++ dirs_above (pre ++ String c "") s')%list
  end.

(** The directory [dir] (a cleaned path, as [filepath.Dir] returns it) below
    the directories above it. *)
Definition path_chain (dir : string) : list string :=
  (dirs_above "" dir ++ [dir])%list.

Module Disk.

(** [os.Stat] as far as the library looks at it: whether the name exists.
    The root and the working directory do, and so does a directory with a
    node below it.  The call changes nothing. *)
Definition present (w : World) (name : string) : bool :=
  bool_decide (name = "/" ∨ name = ".")
  || bool_decide (is_Some (files w !! name))
  || existsb (λ pf : string * File,
                bool_decide (is_Some (strip_prefix (name ++ "/") pf.1)))
             (map_to_list (files w)).

(** A run of a call that takes time: the worlds a concurrent reader can find
    while it goes on, the world it leaves, and the error it returns. *)
Record Run : Type := mkRun {
  during : list World;
  final : World;
  failure : option error;
}.

Definition stages (r : Run) : list World := (during r ++ [final r])%list.

(** The call as its caller sees it. *)
Definition returning (r : World → Run) : M (option error) := λ w,
  (Returned (failure (r w)), final (r w)).

Section Calls.
Context {D : FileSystem}.

(** [os.MkdirAll]: the missing directories of the chain are made from the
    top; when the system stops the call the ones made so far stay, and the
    error names the one that could not be made. *)
Definition os_MkdirAll (dir : string) (w : World) : World * option error :=
  let todo := filter (λ d, present w d = false) (path_chain dir) in
  let made (ds : list string) :=
    with_files (foldr (λ d fs, <[d := mkFile "" (clock w)]> fs) (files w) ds)
               (log (EvMkdirAll dir) w) in
  match mkdir_stops dir with
  | Some n =>
      match todo !! n with
      | Some d => (made (take n todo), Some (PathError "mkdir" d))
      | None => (made todo, None)
      end
  | None => (made todo, None)
  end.

(** The world in which [content] is what has reached the file at [path]
    of the bytes of the call [Write(bytes)]. *)
Definition sys_written (path content bytes : string) (w1 : World) : World :=
  log (EvWrite path bytes)
      (with_files (<[path := mkFile content (clock w1)]> (files w1)) w1).

(** [ioutil.WriteFile]: the open with [O_WRONLY|O_CREATE|O_TRUNC] fails on
    the empty path and where the system refuses it, and changes nothing then;
    otherwise the file is created or emptied, [Write] puts the bytes into it
    piece by piece until it is done or stopped, and the file is closed.  The
    error is that of [Write] or else that of [Close]. *)
Definition WriteFile_run (path bytes : string) (w : World) : Run :=
  if bool_decide (path = "") || negb (writable w path)
  then mkRun [] (log (EvOpen path) w) (Some (PathError "open" path))
  else
    let w1 := sys_open_trunc path w in
    let n := match write_stops path with
             | Some n => Nat.min n (String.length bytes)
             | None => String.length bytes
             end in
    let done := string_take n bytes in
    mkRun (w1 :: ((λ c, sys_written path c bytes w1)
                    <$> piece_contents (write_pieces path) done))
          (sys_close path (sys_written path done bytes w1))
          (if decide (n < String.length bytes)%nat
           then Some (PathError "write" path)
           else if close_fails path then Some (PathError "close" path)
           else None).

Definition ioutil_WriteFile (path bytes : string) : M (option error) :=
  returning (WriteFile_run path bytes).

(** A write that nothing stops: the system lets the file be opened, its
    directory is there or can be made, and [Write] and [Close] go through. *)
Definition goes_through (path : string) (w : World) : Prop :=
  path ≠ "" ∧ writable w path = true ∧
  (present w (filepath_Dir path) = true ∨ mkdir_stops (filepath_Dir path) = None) ∧
  write_stops path = None ∧ close_fails path = false.
End Calls.

Section Program.
Context {L : Libraries} {D : FileSystem}.

(** [clientcmd.WriteToFile]: serialise; if [os.Stat] does not find the
    directory of the destination, make it with [os.MkdirAll]; then write the
    destination with [ioutil.WriteFile]. *)
Definition WriteToFile_run (cfg : api.Config) (path : string) (w : World) : Run :=
  match clientcmd_Write cfg with
  | inr e => mkRun [] w (Some e)
  | inl content =>
      let dir := filepath_Dir path in
      if present w dir then WriteFile_run path content w
      else
        let m := os_MkdirAll dir w in
        match m.2 with
        | Some e => mkRun [] m.1 (Some e)
        | None =>
            let r := WriteFile_run path content m.1 in
            mkRun (m.1 :: during r) (final r) (failure r)
        end
  end.

Definition clientcmd_WriteToFile (cfg : api.Config) (path : string)
    : M (option error) :=
  returning (WriteToFile_run cfg path).

Definition writeConfig (k : Kubeswitch) (path : string) : M (option error) :=
  do err <- clientcmd_WriteToFile (config k) path;
  match err with
  | Some e => ret (Some e)
  | None => ret None
  end.

Definition setupSession (k : Kubeswitch) : M (option error) :=
  do env <- syscall_Environ;
  if IsActive env then
    do path <- Getenv EnvVarConfig;
    do err <- writeConfig k path;
    match err with
    | Some e => ret (Some e)
    | None => ret None
    end
  else
    do now <- time_Now;
    do dir <- sessionDir;
    let kubePath := dir ++ "/config_" ++ fmt_d (time_UnixNano now) in
    do err <- writeConfig k kubePath;
    match err with
    | Some e => ret (Some e)
    | None =>
        run Setenv EnvVarActive "TRUE";
        run Setenv EnvVarConfig kubePath;
        do sh0 <- Getenv "SHELL";
        do sh1 <- Getenv "SHELL";
        do envv <- syscall_Environ;
        run syscall_Exec sh0 [sh1] envv;
        ret None
    end.

Definition SetContext (k : Kubeswitch) (ctx : string) (w : World) : Call :=
  if negb (IsValidContext k ctx)
  then mkCall k (Returned (Some (errorString ("invalid context, " ++ ctx)))) w
  else
    let k' := mkKubeswitch (api.set_CurrentContext ctx (config k)) (namespaces k) in
    call k' (do err <- setupSession k';
             match err with
             | Some e => ret (Some e)
             | None => ret None
             end) w.

Definition SetNamespace (k : Kubeswitch) (ns : string) (w : World) : Call :=
  match IsValidNamespace k ns with
  | None => mkCall k Panicked w
  | Some false =>
      mkCall k (Returned (Some (errorString ("invalid namespace, " ++ ns)))) w
  | Some true =>
      let k' := mkKubeswitch (set_default_namespace ns (config k)) (namespaces k) in
      call k' (do err <- setupSession k';
               match err with
               | Some e => ret (Some e)
               | None => ret None
               end) w
  end.

End Program.

(** The older variant of the package, whose [SetContext] carries the session
    code inline and whose [SetNamespace] always writes to the path in
    [KUBECONFIG].  Its struct [KubeSwitch] has the fields of [Kubeswitch];
    [ListContexts], [IsValidContext], [IsValidNamespace], [IsActive],
    [writeConfig] and [Purge] have the bodies of the current ones. *)
Module Legacy.
Section Program.
Context {L : Libraries} {D : FileSystem}.

Definition SetContext (k : Kubeswitch) (ctx : string) (w : World) : Call :=
  if negb (IsValidContext k ctx)
  then mkCall k (Returned (Some (errorString ("invalid context, " ++ ctx)))) w
  else
    let k' := mkKubeswitch (api.set_CurrentContext ctx (config k)) (namespaces k) in
    call k'
      (do env <- syscall_Environ;
       if IsActive env then
         do path <- Getenv EnvVarConfig;
         do err <- writeConfig k' path;
         match err with
         | Some e => ret (Some e)
         | None => ret None
         end
       else
         do now <- time_Now;
         do dir <- sessionDir;
         let kubePath := dir ++ "/config_" ++ fmt_d (time_UnixNano now) in
         do err <- writeConfig k' kubePath;
         match err with
         | Some e => ret (Some e)
         | None =>
             run Setenv EnvVarActive "TRUE";
             run Setenv EnvVarConfig kubePath;
             do sh0 <- Getenv "SHELL";
             do sh1 <- Getenv "SHELL";
             do envv <- syscall_Environ;
             run syscall_Exec sh0 [sh1] envv;
             ret None
         end) w.

Definition SetNamespace (k : Kubeswitch) (ns : string) (w : World) : Call :=
  match IsValidNamespace k ns with
  | None => mkCall k Panicked w
  | Some false =>
      mkCall k (Returned (Some (errorString ("invalid namespace, " ++ ns)))) w
  | Some true =>
      let k' := mkKubeswitch (set_default_namespace ns (config k)) (namespaces k) in
      call k' (do path <- Getenv EnvVarConfig;
               do err <- writeConfig k' path;
               match err with
               | Some e => ret (Some e)
               | None => ret None
               end) w
  end.
End Program.
End Legacy.
End Disk.

(** The oldest variant: the configuration is the versioned one and
    [writeConfig] marshals it to JSON and calls [ioutil.WriteFile], which makes
    no directory. *)
Module LegacyJSON.
Section Program.
Context {L : Libraries} {D : FileSystem}.

Record KubeSwitch : Type := mkKubeSwitch {
  config : apiv1.Config;
  namespaces : option corev1.NamespaceList;
}.

Definition writeConfig (k : KubeSwitch) (path : string) : M (option error) :=
  match json_Marshal (config k) with
  | inr e => ret (Some e)
  | inl cfgFile =>
      do err <- Disk.ioutil_WriteFile path cfgFile;
      match err with
      | Some e => ret (Some e)
      | None => ret None
      end
  end.
End Program.
End LegacyJSON.

(** ** The rest of the oldest variant *)

(** [fmt.Errorf] called with a format string and no operand: a string
    without [%] is printed as it stands; how the directives of any other
    string come out is left to [verbs]. *)
Fixpoint has_percent (s : string) : bool :=
  match s with
  | EmptyString => false
  | String c s' => if decide (c = "%"%char) then true else has_percent s'
  end.

Definition fmt_Errorf0 (verbs : string → string) (format : string) : string :=
  if has_percent format then verbs format else format.

(** The methods of [KubeSwitch] in the variant that keeps the versioned
    configuration, whose contexts are a slice of named entries.  [config] is
    taken to be non-nil, as it is after a configuration file was read. *)
Module JSONVariant.
Section Program.
Context {L : Libraries} {D : FileSystem}.
Variable verbs : string → string.

Record Call : Type := mkCall {
  receiver : LegacyJSON.KubeSwitch;
  result : Outcome (option error);
  after : World;
}.

Definition call (k : LegacyJSON.KubeSwitch) (c : M (option error)) (w : World)
    : Call :=
  mkCall k (c w).1 (c w).2.

(** [ListContexts]: the names of the entries, in slice order, then sorted. *)
Definition ListContexts (k : LegacyJSON.KubeSwitch) : list string :=
  sort_Strings (apiv1.Name <$> apiv1.Contexts (LegacyJSON.config k)).

Definition IsValidContext (k : LegacyJSON.KubeSwitch) (ctx : string) : bool :=
  contains ctx (ListContexts k).

(** The loop of [GetContext], entered at index [i]. *)
Fixpoint GetContext_from (i : Z) (l : list apiv1.NamedContext) (ctx : string)
    : option (Z * api.Context) :=
  match l with
  | [] => None
  | c :: l' =>
      if decide (apiv1.Name c = ctx) then Some (i, apiv1.Context c)
      else GetContext_from (i + 1) l' ctx
  end.

(** [GetContext] returns the requested context and its index in the slice,
    or [-1], nil and an error. *)
Definition GetContext (k : LegacyJSON.KubeSwitch) (ctx : string)
    : Z * option api.Context * option error :=
  match GetContext_from 0 (apiv1.Contexts (LegacyJSON.config k)) ctx with
  | Some (i, c) => (i, Some c, None)
  | None =>
      (-1, None,
       Some (errorString (fmt_Errorf0 verbs ("context `" ++ ctx ++ "` not found"))))
  end.

Definition set_CurrentContext (ctx : string) (c : apiv1.Config) : apiv1.Config :=
  apiv1.mkConfig (apiv1.Clusters c) (apiv1.AuthInfos c) (apiv1.Contexts c) ctx.

(** [k.config.Contexts[idx].Context.Namespace = ns], for an index in range. *)
Definition set_Namespace_at (idx : Z) (ns : string) (c : apiv1.Config)
    : apiv1.Config :=
  apiv1.mkConfig (apiv1.Clusters c) (apiv1.AuthInfos c)
    (alter (λ e, apiv1.mkNamedContext (apiv1.Name e)
                   (api.set_Namespace ns (apiv1.Context e)))
           (Z.to_nat idx) (apiv1.Contexts c))
    (apiv1.CurrentContext c).

Definition SetContext (k : LegacyJSON.KubeSwitch) (ctx : string) (w : World)
    : Call :=
  if negb (IsValidContext k ctx)
  then mkCall k (Returned (Some (errorString ("invalid context, " ++ ctx)))) w
  else
    let k' := LegacyJSON.mkKubeSwitch (set_CurrentContext ctx (LegacyJSON.config k))
                (LegacyJSON.namespaces k) in
    call k'
      (do env <- syscall_Environ;
       if IsActive env then
         do path <- Getenv EnvVarConfig;
         do err <- LegacyJSON.writeConfig k' path;
         match err with
         | Some e => ret (Some e)
         | None => ret None
         end
       else
         do now <- time_Now;
         do dir <- sessionDir;
         let kubePath := dir ++ "/config_" ++ fmt_d (time_UnixNano now) in
         do err <- LegacyJSON.writeConfig k' kubePath;
         match err with
         | Some e => ret (Some e)
         | None =>
             run Setenv EnvVarActive "TRUE";
             run Setenv EnvVarConfig kubePath;
             do sh0 <- Getenv "SHELL";
             do sh1 <- Getenv "SHELL";
             do envv <- syscall_Environ;
             run syscall_Exec sh0 [sh1] envv;
             ret None
         end) w.

Definition IsValidNamespace (k : LegacyJSON.KubeSwitch) (ns : string)
    : option bool :=
  match LegacyJSON.namespaces k with
  | Some nl => Some (contains_Name ns (corev1.Items nl))
  | None => None
  end.

(** [SetNamespace]: the current context is looked up with [GetContext], the
    entry at the index it returns gets the namespace, and the configuration
    is written to the path in [KUBECONFIG]. *)
Definition SetNamespace (k : LegacyJSON.KubeSwitch) (ns : string) (w : World)
    : Call :=
  match IsValidNamespace k ns with
  | None => mkCall k Panicked w
  | Some false =>
      mkCall k (Returned (Some (errorString ("invalid namespace, " ++ ns)))) w
  | Some true =>
      match GetContext k (apiv1.CurrentContext (LegacyJSON.config k)) with
      | (_, _, Some err) => mkCall k (Returned (Some err)) w
      | (idx, _, None) =>
          let k' := LegacyJSON.mkKubeSwitch
                      (set_Namespace_at idx ns (LegacyJSON.config k))
                      (LegacyJSON.namespaces k) in
          call k' (do path <- Getenv EnvVarConfig;
                   do err <- LegacyJSON.writeConfig k' path;
                   match err with
                   | Some e => ret (Some e)
                   | None => ret None
                   end) w
      end
  end.
End Program.
End JSONVariant.

(** ** Package [cmd] *)

Fixpoint has_nul (s : string) : bool :=
  match s with
  | EmptyString => false
  | String c s' => if decide (c = Ascii.zero) then true else has_nul s'
  end.

(** [os.Setenv] where its error is looked at: a value with a NUL byte is
    refused and the environment stays as it is. *)
Definition os_Setenv (key value : string) : M (option error) := λ w,
  if has_nul value
  then (Returned (Some (Errno "setenv")), log (EvSetenv key value) w)
  else (Returned None,
        log (EvSetenv key value) (with_environ (<[key := value]> (environ w)) w)).

(** [strings.Join]. *)
Fixpoint strings_Join (l : list string) (sep : string) : string :=
  match l with
  | [] => ""
  | x :: l' =>
      match l' with
      | [] => x
      | _ :: _ => x ++ sep ++ strings_Join l' sep
      end
  end.

Module cmd.
(** [removeDuplicates] collects the strings as keys of a map and returns the
    keys.  Go leaves the order of the keys open, and it changes from run to
    run: the result is this list up to its order. *)
Definition removeDuplicates (s : list string) : list string :=
  elements (list_to_set s : gset string).

Section Config.
(** The settings [viper.GetString("kubeConfig")] and
    [viper.GetStringSlice("configs")], the expansion
    [homedir.Expand(os.ExpandEnv(s))] and [filepath.Glob], the last two
    reading the world. *)
Variable kubeConfig : string.
Variable configs : list string.
Variable expand : World → string → string + error.
Variable glob : World → string → list string.

(** The order in which the [range] over the map of [removeDuplicates] yields
    the keys in this run: it rearranges them. *)
Variable map_range : list string → list string.

Definition Expand (s : string) : M (string + error) := λ w,
  (Returned (expand w s), w).

Definition Glob (pattern : string) : M (list string) := λ w,
  (Returned (glob w pattern), w).

(** The loop over the patterns of the [configs] key: the errors of the
    expansion (whose result is then empty) and of the globbing are dropped. *)
Fixpoint glob_configs (patterns : list string) (acc : list string)
    : M (list string) :=
  match patterns with
  | [] => ret acc
  | path :: rest =>
      do expanded <- Expand path;
      let absPath := match expanded with inl p => p | inr _ => "" end in
      do files <- Glob absPath;
      glob_configs rest (acc ++ files)%list
  end.

(** [setupKubeEnvVar] builds the colon-separated list of kube configs and
    sets [KUBECONFIG] to it, unless the process is inside a session. *)
Definition setupKubeEnvVar : M (option error) :=
  do env <- syscall_Environ;
  if negb (IsActive env) then
    do cfg <- Expand kubeConfig;
    match cfg with
    | inr err => ret (Some err)
    | inl cfg =>
        do current <- Getenv EnvVarConfig;
        do kConfig <- Expand current;
        match kConfig with
        | inr err => ret (Some err)
        | inl kConfig =>
            do all <- glob_configs configs [cfg; kConfig];
            do err <- os_Setenv EnvVarConfig (strings_Join (map_range (removeDuplicates all)) ":");
            match err with
            | Some e => ret (Some e)
            | None => ret None
            end
        end
    end
  else ret None.
End Config.
End cmd.

(** ** Properties the theorems speak about *)

(** The bytes a reader finds at [path]. *)
Definition content (w : World) (path : string) : option string :=
  data <$> files w !! path.

(** A write of [bytes] to [path] that starts in [w] and passes through the
    worlds [stages] never shows a partially written file: at every stage a
    reader finds what was there before or all of [bytes]. *)
Definition never_partial (path bytes : string) (w : World)
    (stages : list World) : Prop :=
  ∀ w', w' ∈ stages → content w' path = content w path ∨ content w' path = Some bytes.

(** [currentContext], if non-empty, is a key of [contexts]. *)
Definition current_resolves (cfg : api.Config) : Prop :=
  api.CurrentContext cfg ≠ "" →
  is_Some (api.Contexts cfg !! api.CurrentContext cfg).

(** A call did not fail: it returned a nil error, or it handed the process
    over to the shell. *)
Definition succeeded (r : Outcome (option error)) : Prop :=
  r = Returned None ∨ r = Replaced.

(** An event that touches the file at [path] and nothing else. *)
Definition file_event (path : string) (e : Event) : Prop :=
  e = EvOpen path ∨ (∃ bytes, e = EvWrite path bytes) ∨ e = EvClose path.

(** The path of a new session file. *)
Definition session_path (w : World) : string :=
  home w ++ "/.kube/tmp/config_" ++ fmt_d (time_UnixNano (clock w)).

(** Where the session commit writes. *)
Definition commit_path (w : World) : string :=
  if IsActive (environ w) then os_Getenv (environ w) EnvVarConfig
  else session_path w.

(** [path] names an entry of the session directory of [w]. *)
Definition session_entry (w : World) (path : string) : Prop :=
  is_Some (entry_name (home w ++ "/.kube/tmp") path).

(** The call [c], made in world [w], committed the configuration of [k'] in
    place: it returned to its caller, the environment is as it was, no file
    other than the one [KUBECONFIG] names has changed, every system call it
    made is an open, write or close of that file, and, when serialising and
    opening succeed, that file holds the serialised configuration. *)
Definition committed_in_place `{Libraries} (k' : Kubeswitch) (w : World)
    (c : Call) : Prop :=
  let path := os_Getenv (environ w) EnvVarConfig in
  receiver c = k' ∧
  (∃ err, result c = Returned err) ∧
  environ (after c) = environ w ∧
  (∀ p, p ≠ path → files (after c) !! p = files w !! p) ∧
  (∃ evs, trace (after c) = (trace w ++ evs)%list ∧ Forall (file_event path) evs) ∧
  (∀ bytes, clientcmd_Write (config k') = inl bytes → writable w path = true →
     result c = Returned None ∧
     files (after c) !! path = Some (mkFile bytes (clock w))).

(** The environment a new session runs in. *)
Definition session_environ (w : World) : gmap string string :=
  <[EnvVarConfig := session_path w]> (<[EnvVarActive := "TRUE"]> (environ w)).

(** The call [c], made in world [w], started a session for the configuration
    of [k'], serialised as [bytes]: it wrote the new session file, then set
    the two variables, then called [exec] on the shell named by [SHELL] with
    the new environment, and made no other system call; it does not return
    unless the [exec] fails. *)
Definition started_session (k' : Kubeswitch) (bytes : string) (w : World)
    (c : Call) : Prop :=
  let path := session_path w in
  let sh := os_Getenv (environ w) "SHELL" in
  receiver c = k' ∧
  files (after c) = <[path := mkFile bytes (clock w)]> (files w) ∧
  environ (after c) = session_environ w ∧
  trace (after c)
  = (trace w ++ [EvOpen path; EvWrite path bytes; EvClose path;
                 EvSetenv EnvVarActive "TRUE"; EvSetenv EnvVarConfig path;
                 EvExec sh [sh] (session_environ w)])%list ∧
  result c = (if executable w sh then Replaced else Returned None).

(** What the purge is meant to leave of the files [fs]: every node except the
    entries of directory [dir] that were last modified strictly before
    [cutoff] and that the system lets remove. *)
Definition purged (dir : string) (cutoff : Z) (rm : string → bool)
    (fs : gmap string File) : gmap string File :=
  filter (λ pf : string * File,
            ¬ (is_Some (entry_name dir pf.1) ∧ modTime pf.2 < cutoff ∧ rm pf.1 = true))
         fs.

(** Two worlds that differ at most in their files and in the log. *)
Definition same_host (w w' : World) : Prop :=
  environ w' = environ w ∧ clock w' = clock w ∧ home w' = home w ∧
  writable w' = writable w ∧ listable w' = listable w ∧
  removable w' = removable w ∧ executable w' = executable w.

(** What a reader of [path] finds during the run [r] of a write of [bytes]
    that started in [w]: at every stage the old content or a leading part of
    [bytes]; and if the run returns no error, then the destination was empty
    at some stage and holds all of [bytes] at the end. *)
Definition direct_write (path bytes : string) (w : World) (r : Disk.Run) : Prop :=
  (∀ w', w' ∈ Disk.stages r →
     content w' path = content w path ∨
     ∃ n, content w' path = Some (string_take n bytes)) ∧
  (Disk.failure r = None →
     (∃ w1, w1 ∈ Disk.during r ∧ content w1 path = Some "") ∧
     content (Disk.final r) path = Some bytes).

(** World [w'] differs from [w] by nothing but a write of [path]: the
    environment is the same; any other path holds what it held, unless the
    directory of [path] was missing and the path is that directory or one
    above it that was missing too, now made; and the calls are opens, writes
    and closes of [path], after one [MkdirAll] if the directory was
    missing. *)
Definition wrote_only {D : FileSystem} (path : string) (w w' : World) : Prop :=
  let dir := filepath_Dir path in
  environ w' = environ w ∧
  (∀ p, p ≠ path →
     files w' !! p = files w !! p ∨
     (Disk.present w dir = false ∧ p ∈ path_chain dir ∧
      Disk.present w p = false ∧ files w' !! p = Some (mkFile "" (clock w)))) ∧
  ∃ evs, Forall (file_event path) evs ∧
    (trace w' = (trace w ++ evs)%list ∨
     (Disk.present w dir = false ∧
      trace w' = (trace w ++ EvMkdirAll dir :: evs)%list)).

(** The call [c], made in world [w], committed the configuration of [k'] in
    place: it returned to its caller; the world differs by nothing but a
    write of the path [KUBECONFIG] names, so no variable is set, no shell is
    run and no other file is made or changed; and when the configuration
    serialises, a call that returned no error has left it in that file, which
    is what a write that nothing stops does. *)
Definition in_place_commit {L : Libraries} {D : FileSystem} (k' : Kubeswitch)
    (w : World) (c : Call) : Prop :=
  let path := os_Getenv (environ w) EnvVarConfig in
  receiver c = k' ∧
  (∃ err, result c = Returned err) ∧
  wrote_only path w (after c) ∧
  (∀ bytes, clientcmd_Write (config k') = inl bytes →
     (result c = Returned None →
      files (after c) !! path = Some (mkFile bytes (clock w))) ∧
     (Disk.goes_through path w → result c = Returned None)).


(** ** Stand-ins for the library functions, used to run the model *)

(** Serialisers that print the current context and its namespace, and the
    calendar arithmetic of a zone without offset changes (a day is 86400
    seconds). *)
Definition print_current (cur : string) (ctx : option api.Context) : string :=
  "current-context: " ++ cur ++ ", namespace: "
    ++ default "" (api.Namespace <$> ctx).

Definition find_context (name : string) (l : list apiv1.NamedContext)
    : option api.Context :=
  apiv1.Context <$> list_find (λ c, apiv1.Name c = name) l ≫= (λ p, Some p.2).

Definition utc_libraries : Libraries := {|
  clientcmd_Write := λ cfg,
    inl (print_current (api.CurrentContext cfg)
           (api.Contexts cfg !! api.CurrentContext cfg));
  json_Marshal := λ cfg,
    inl (print_current (apiv1.CurrentContext cfg)
           (find_context (apiv1.CurrentContext cfg) (apiv1.Contexts cfg)));
  time_AddDate := λ t _ _ days, t + days * 86400000000000;
|}.

(** A configuration with contexts [a] and [b], current context [a], and a
    snapshot with the namespaces [prod] and [dev]. *)
Definition sample_config : api.Config :=
  api.mkConfig ∅ ∅
    (list_to_map [("b", api.mkContext "east" "ops" "");
                  ("a", api.mkContext "west" "dev" "")])
    "a".

Definition sample_kubeswitch : Kubeswitch :=
  mkKubeswitch sample_config
    (Some (corev1.mkNamespaceList
             [corev1.mkNamespace "prod"; corev1.mkNamespace "dev"])).

Definition permissive : string → bool := λ _, true.

(** A fresh process outside any session. *)
Definition fresh_world : World :=
  mkWorld {[ "SHELL" := "/bin/zsh" ]} ∅ 1600000000000000000 "/home/u"
    permissive permissive permissive permissive [].

(** A process inside the session whose file is [/tmp/sess/config_123]. *)
Definition session_world : World :=
  mkWorld (<[ "KUBESWITCH_ACTIVE" := "TRUE" ]>
           (<[ "KUBECONFIG" := "/tmp/sess/config_123" ]>
            {[ "SHELL" := "/bin/zsh" ]}))
    {[ "/tmp/sess/config_123" := mkFile "current-context: a, namespace: " 1599999999000000000 ]}
    1600000000000000000 "/home/u"
    permissive permissive permissive permissive [].

(** The session directory of the specification's purge scenario: files last
    modified one, three and ten days before the clock reading, beside a file
    that is not in the directory. *)
Definition day_ns : Z := 86400000000000.

Definition purge_world : World :=
  mkWorld ∅
    (list_to_map
       [("/home/u/.kube/tmp/config_1", mkFile "one" (1600000000000000000 - 1 * day_ns));
        ("/home/u/.kube/tmp/config_3", mkFile "three" (1600000000000000000 - 3 * day_ns));
        ("/home/u/.kube/tmp/config_10", mkFile "ten" (1600000000000000000 - 10 * day_ns));
        ("/home/u/.kube/config", mkFile "main" (1600000000000000000 - 30 * day_ns))])
    1600000000000000000 "/home/u"
    permissive permissive permissive permissive [].

(** The same world when the session directory cannot be listed. *)
Definition unlistable_world : World :=
  mkWorld (environ purge_world) (files purge_world) (clock purge_world)
    (home purge_world) permissive (λ _, false) permissive permissive [].

(** A system call that the purge of world [w] with cutoff [cutoff] may make:
    the listing of the session directory, the removal of an entry that was
    last modified before the cutoff, or the print of the error of such a
    removal. *)
Definition purge_call (w : World) (cutoff : Z) (e : Event) : Prop :=
  e = EvReadDir (home w ++ "/.kube/tmp") ∨
  ∃ p f, files w !! p = Some f ∧ session_entry w p ∧ modTime f < cutoff ∧
         (e = EvRemove p ∨ e = EvPrintln (PathError "remove" p)).

(** The world of [purge_world] in which one of the old entries cannot be
    removed. *)
Definition stubborn_world : World :=
  mkWorld (environ purge_world) (files purge_world) (clock purge_world)
    (home purge_world) permissive permissive
    (λ p, if decide (p = "/home/u/.kube/tmp/config_10") then false else true)
    permissive [].

(** A versioned configuration in which the name [a] occurs twice, with
    current context [a], and the snapshot of [sample_kubeswitch]. *)
Definition sample_json_kubeswitch : LegacyJSON.KubeSwitch :=
  LegacyJSON.mkKubeSwitch
    (apiv1.mkConfig [] []
       [apiv1.mkNamedContext "b" (api.mkContext "east" "ops" "");
        apiv1.mkNamedContext "a" (api.mkContext "west" "dev" "");
        apiv1.mkNamedContext "a" (api.mkContext "north" "qa" "")]
       "a")
    (namespaces sample_kubeswitch).

(** The directives of a format string without operands, left as they are. *)
Definition verbs_kept : string → string := λ s, s.

(** The files the patterns of the [configs] key match: a pattern that does
    not expand is globbed as the empty pattern. *)
Definition cmd_globbed (expand : World → string → string + error)
    (glob : World → string → list string) (w : World)
    (patterns : list string) : list string :=
  mjoin ((λ path, glob w (match expand w path with inl p => p | inr _ => "" end))
           <$> patterns).

(** [filepath.Dir] of a cleaned path. *)
Definition dir_of (path : string) : string :=
  match last (dirs_above "" path) with
  | Some d => d
  | None => if bool_decide (is_Some (strip_prefix "/" path)) then "/" else "."
  end.

(** A system on which nothing stops a write and the bytes arrive at once;
    one on which they arrive eight at a time; one whose disk is full after
    twelve bytes of a write; and one on which no directory can be made. *)
Definition steady_disk : FileSystem := {|
  filepath_Dir := dir_of;
  mkdir_stops := λ _, None;
  write_stops := λ _, None;
  write_pieces := λ _, [];
  close_fails := λ _, false;
|}.

Definition slow_disk : FileSystem := {|
  filepath_Dir := dir_of;
  mkdir_stops := λ _, None;
  write_stops := λ _, None;
  write_pieces := λ _, [8; 8; 8]%nat;
  close_fails := λ _, false;
|}.

Definition full_disk : FileSystem := {|
  filepath_Dir := dir_of;
  mkdir_stops := λ _, None;
  write_stops := λ _, Some 12%nat;
  write_pieces := λ _, [];
  close_fails := λ _, false;
|}.

Definition sealed_disk : FileSystem := {|
  filepath_Dir := dir_of;
  mkdir_stops := λ _, Some 0%nat;
  write_stops := λ _, None;
  write_pieces := λ _, [];
  close_fails := λ _, false;
|}.

(** A process outside any session whose [KUBECONFIG] names the default
    config, with the session directory in place. *)
Definition plain_world : World :=
  mkWorld (<[ "KUBECONFIG" := "/home/u/.kube/config" ]> {[ "SHELL" := "/bin/zsh" ]})
    (list_to_map
       [("/home/u/.kube/config", mkFile "current-context: a, namespace: " 1599999999000000000);
        ("/home/u/.kube/tmp", mkFile "" 1599999999000000000)])
    1600000000000000000 "/home/u"
    permissive permissive permissive permissive [].

(** A process inside a session whose file and directories are gone. *)
Definition lost_session_world : World :=
  mkWorld (<[ "KUBESWITCH_ACTIVE" := "TRUE" ]>
           (<[ "KUBECONFIG" := "/data/kube/cfg/config_9" ]>
            {[ "SHELL" := "/bin/zsh" ]}))
    ∅ 1600000000000000000 "/home/u"
    permissive permissive permissive permissive [].

(** * Theorems *)

(** ** Strings and sorting *)

Lemma string_app_assoc (a b c : string) : (a ++ b) ++ c = a ++ (b ++ c).
Proof.
  induction a as [|x a IH]; [reflexivity|].
  change (String x ((a ++ b) ++ c) = String x (a ++ b ++ c)). by rewrite IH.
Qed.

Lemma upper_byte_T c : upper_byte c = "T"%char ↔ c = "T"%char ∨ c = "t"%char.
Proof.
  destruct c as [[] [] [] [] [] [] [] []]; vm_compute;
    (split; [ intros E; first [ discriminate E | left; reflexivity | right; reflexivity ]
            | intros [E|E]; first [ discriminate E | reflexivity ] ]).
Qed.

Lemma upper_byte_R c : upper_byte c = "R"%char ↔ c = "R"%char ∨ c = "r"%char.
Proof.
  destruct c as [[] [] [] [] [] [] [] []]; vm_compute;
    (split; [ intros E; first [ discriminate E | left; reflexivity | right; reflexivity ]
            | intros [E|E]; first [ discriminate E | reflexivity ] ]).
Qed.

Lemma upper_byte_U c : upper_byte c = "U"%char ↔ c = "U"%char ∨ c = "u"%char.
Proof.
  destruct c as [[] [] [] [] [] [] [] []]; vm_compute;
    (split; [ intros E; first [ discriminate E | left; reflexivity | right; reflexivity ]
            | intros [E|E]; first [ discriminate E | reflexivity ] ]).
Qed.

Lemma upper_byte_E c : upper_byte c = "E"%char ↔ c = "E"%char ∨ c = "e"%char.
Proof.
  destruct c as [[] [] [] [] [] [] [] []]; vm_compute;
    (split; [ intros E; first [ discriminate E | left; reflexivity | right; reflexivity ]
            | intros [E|E]; first [ discriminate E | reflexivity ] ]).
Qed.

(** The strings that [ToUpper] sends to ["TRUE"] are the sixteen spellings of
    "true" in upper and lower case. *)
Lemma ToUpper_TRUE (v : string) :
  ToUpper v = "TRUE" ↔
  ∃ t r u e, v = String t (String r (String u (String e EmptyString))) ∧
    (t = "T" ∨ t = "t")%char ∧ (r = "R" ∨ r = "r")%char ∧
    (u = "U" ∨ u = "u")%char ∧ (e = "E" ∨ e = "e")%char.
Proof.
  split.
  - destruct v as [|t [|r [|u [|e [|x v]]]]]; simpl; try discriminate.
    intros E. injection E as Et Er Eu Ee.
    exists t, r, u, e. split; [reflexivity|].
    by rewrite <- upper_byte_T, <- upper_byte_R, <- upper_byte_U, <- upper_byte_E.
  - intros (t & r & u & e & -> & Ht & Hr & Hu & He). simpl.
    apply upper_byte_T in Ht. apply upper_byte_R in Hr.
    apply upper_byte_U in Hu. apply upper_byte_E in He.
    by rewrite Ht, Hr, Hu, He.
Qed.

Lemma IsActive_true_iff env :
  IsActive env = true ↔ ToUpper (os_Getenv env EnvVarActive) = "TRUE".
Proof. unfold IsActive. case_decide; split; intros; congruence. Qed.

Example IsActive_TRUE : IsActive {[ "KUBESWITCH_ACTIVE" := "TRUE" ]} = true.
Proof. reflexivity. Qed.

Example IsActive_mixed_case : IsActive {[ "KUBESWITCH_ACTIVE" := "tRuE" ]} = true.
Proof. reflexivity. Qed.

Example IsActive_1 : IsActive {[ "KUBESWITCH_ACTIVE" := "1" ]} = false.
Proof. reflexivity. Qed.

(** C6: [IsActive] depends on the environment only, and it is true exactly
    when the marker variable [KUBESWITCH_ACTIVE] is set and its value, put in
    upper case, is ["TRUE"] (one of the sixteen case spellings of "true"); it
    is false when the variable is unset or empty and for values such as
    ["false"], ["1"] and ["yes"]. *)
Theorem IsActive_iff_marker_is_TRUE :
  (∀ env, IsActive env = true ↔
          ∃ v, env !! EnvVarActive = Some v ∧ ToUpper v = "TRUE") ∧
  (∀ env, IsActive env = true ↔
          ∃ t r u e,
            env !! EnvVarActive = Some (String t (String r (String u (String e EmptyString)))) ∧
            (t = "T" ∨ t = "t")%char ∧ (r = "R" ∨ r = "r")%char ∧
            (u = "U" ∨ u = "u")%char ∧ (e = "E" ∨ e = "e")%char) ∧
  (∀ env, env !! EnvVarActive = None → IsActive env = false) ∧
  (∀ env v, env !! EnvVarActive = Some v →
            v ∈ [""; "false"; "FALSE"; "1"; "0"; "yes"; "YES"; "on"; "TRUE "; " TRUE"; "T"] →
            IsActive env = false).
Proof.
  assert (Hset : ∀ env, IsActive env = true ↔
            ∃ v, env !! EnvVarActive = Some v ∧ ToUpper v = "TRUE").
  { intros env. rewrite IsActive_true_iff. unfold os_Getenv. split.
    - destruct (env !! EnvVarActive) as [v|] eqn:E; simpl; [eauto | discriminate].
    - intros (v & -> & Hv). exact Hv. }
  split; [exact Hset|]. split; [|split].
  - intros env. rewrite Hset. split.
    + intros (v & E & Hv). apply ToUpper_TRUE in Hv as (t & r & u & e & -> & Hs).
      exists t, r, u, e. by split.
    + intros (t & r & u & e & E & Hs). eexists. split; [exact E|].
      apply ToUpper_TRUE. exists t, r, u, e. by split.
  - intros env E. unfold IsActive, os_Getenv. rewrite E. reflexivity.
  - intros env v E Hv. unfold IsActive, os_Getenv. rewrite E. simpl.
    repeat (apply elem_of_cons in Hv as [->|Hv]; [reflexivity|]).
    by apply elem_of_nil in Hv.
Qed.

Lemma sort_Strings_Sorted l : Sorted String.le (sort_Strings l).
Proof. apply (Sorted_merge_sort String.le). Qed.

Lemma sort_Strings_Permutation l : sort_Strings l ≡ₚ l.
Proof. apply (merge_sort_Permutation String.le). Qed.

Lemma sort_Strings_unique l l' :
  Sorted String.le l' → l' ≡ₚ l → l' = sort_Strings l.
Proof.
  intros Hs Hp. apply (Sorted_unique String.le); [exact Hs | apply sort_Strings_Sorted |].
  by rewrite sort_Strings_Permutation.
Qed.

Lemma elem_of_sort_Strings x l : x ∈ sort_Strings l ↔ x ∈ l.
Proof. by rewrite sort_Strings_Permutation. Qed.

Lemma contains_true x l : contains x l = true ↔ x ∈ l.
Proof.
  induction l as [|c l IH]; simpl.
  - split; [discriminate | by intros ?%elem_of_nil].
  - rewrite elem_of_cons. case_decide as Hc.
    + split; [by left | reflexivity].
    + rewrite IH. split; [by right | by intros [?|?]].
Qed.

Lemma contains_Name_true ns l :
  contains_Name ns l = true ↔ ns ∈ corev1.Name <$> l.
Proof.
  induction l as [|n l IH]; simpl.
  - split; [discriminate | by intros ?%elem_of_nil].
  - rewrite elem_of_cons. case_decide as Hc.
    + split; [by left | reflexivity].
    + rewrite IH. split; [by right | by intros [?|?]].
Qed.

Lemma elem_of_ListContexts k n :
  n ∈ ListContexts k ↔ is_Some (api.Contexts (config k) !! n).
Proof.
  unfold ListContexts. rewrite elem_of_sort_Strings, list_elem_of_fmap. split.
  - intros ([i x] & -> & Hin). apply elem_of_map_to_list in Hin. by exists x.
  - intros [x Hx]. exists (n, x). split; [reflexivity | by apply elem_of_map_to_list].
Qed.

Lemma IsValidContext_true k n :
  IsValidContext k n = true ↔ is_Some (api.Contexts (config k) !! n).
Proof. unfold IsValidContext. by rewrite contains_true, elem_of_ListContexts. Qed.

Lemma IsValidContext_false k n :
  IsValidContext k n = false ↔ api.Contexts (config k) !! n = None.
Proof.
  rewrite <- not_true_iff_false, IsValidContext_true, <- eq_None_not_Some. done.
Qed.

(** C8: [ListContexts] and [ListNamespaces] return the names in ascending
    lexicographic order: the output is sorted and is a rearrangement of the
    context names (of the namespace names of the snapshot), which fixes it
    whatever the order of iteration, and it is empty when the input is. *)
Theorem listings_sorted_ascending :
  (∀ k : Kubeswitch,
     Sorted String.le (ListContexts k) ∧
     ListContexts k ≡ₚ (map_to_list (api.Contexts (config k))).*1 ∧
     (∀ n, n ∈ ListContexts k ↔ is_Some (api.Contexts (config k) !! n)) ∧
     (∀ l, Sorted String.le l →
           l ≡ₚ (map_to_list (api.Contexts (config k))).*1 → l = ListContexts k) ∧
     (api.Contexts (config k) = ∅ → ListContexts k = [])) ∧
  (∀ (k : Kubeswitch) (snapshot : corev1.NamespaceList),
     namespaces k = Some snapshot →
     ∃ out, ListNamespaces k = Some out ∧
       Sorted String.le out ∧
       out ≡ₚ corev1.Name <$> corev1.Items snapshot ∧
       (∀ l, Sorted String.le l →
             l ≡ₚ corev1.Name <$> corev1.Items snapshot → l = out) ∧
       (corev1.Items snapshot = [] → out = [])).
Proof.
  split.
  - intros k. unfold ListContexts. repeat split.
    + apply sort_Strings_Sorted.
    + apply sort_Strings_Permutation.
    + apply elem_of_ListContexts.
    + apply elem_of_ListContexts.
    + intros l Hs Hp. by apply sort_Strings_unique.
    + intros ->. by rewrite map_to_list_empty.
  - intros k snapshot Hk. unfold ListNamespaces. rewrite Hk.
    eexists. split; [reflexivity|]. repeat split.
    + apply sort_Strings_Sorted.
    + apply sort_Strings_Permutation.
    + intros l Hs Hp. by apply sort_Strings_unique.
    + intros ->. reflexivity.
Qed.

Example ListContexts_sample : ListContexts sample_kubeswitch = ["a"; "b"].
Proof. reflexivity. Qed.

Example ListNamespaces_sample :
  ListNamespaces sample_kubeswitch = Some ["dev"; "prod"].
Proof. reflexivity. Qed.

(** ** The session commit *)

Section Commit.
Context `{Libraries}.

Lemma rewrap (c : M (option error)) w :
  (do err <- c;
   match err with
   | Some e => ret (Some e)
   | None => ret None
   end) w = c w.
Proof. unfold bind, ret. by destruct (c w) as [[[e|]| |] w']. Qed.

Lemma Getenv_bind {B} key (f : string → M B) w :
  (do x <- Getenv key; f x) w = f (os_Getenv (environ w) key) w.
Proof. reflexivity. Qed.

Lemma writeConfig_eq k path w :
  writeConfig k path w = clientcmd_WriteToFile (config k) path w.
Proof. unfold writeConfig. apply rewrap. Qed.

Lemma sessionDir_eq w : sessionDir w = (Returned (home w ++ "/.kube/tmp"), w).
Proof.
  unfold sessionDir, bind, kubeDir, ret. by rewrite string_app_assoc.
Qed.

Lemma kubePath_eq w :
  (home w ++ "/.kube/tmp") ++ "/config_" ++ fmt_d (time_UnixNano (clock w))
  = session_path w.
Proof. unfold session_path. by rewrite string_app_assoc. Qed.

Lemma written_files path bytes w :
  files (sys_close path (sys_write path bytes (sys_open_trunc path w)))
  = <[path := mkFile bytes (clock w)]> (files w).
Proof.
  unfold sys_close, sys_write, sys_open_trunc. simpl.
  rewrite lookup_insert_eq, insert_insert_eq. reflexivity.
Qed.

Lemma written_trace path bytes w :
  trace (sys_close path (sys_write path bytes (sys_open_trunc path w)))
  = (trace w ++ [EvOpen path; EvWrite path bytes; EvClose path])%list.
Proof.
  unfold sys_close, sys_write, sys_open_trunc. simpl.
  by rewrite <- !app_assoc.
Qed.

(** Inside a session the commit is one [WriteToFile] to the path in
    [KUBECONFIG]. *)
Lemma setupSession_active k w :
  IsActive (environ w) = true →
  setupSession k w
  = clientcmd_WriteToFile (config k) (os_Getenv (environ w) EnvVarConfig) w.
Proof.
  intros Ha. unfold setupSession, bind at 1, syscall_Environ. rewrite Ha.
  unfold bind at 1, Getenv. rewrite rewrap. apply writeConfig_eq.
Qed.

(** What a [WriteToFile] to [path] can do to the world: nothing but write
    that file. *)
Lemma WriteToFile_frame cfg path w :
  let r := clientcmd_WriteToFile cfg path w in
  (∃ err, r.1 = Returned err) ∧
  environ r.2 = environ w ∧
  (∀ p, p ≠ path → files r.2 !! p = files w !! p) ∧
  (∃ evs, trace r.2 = (trace w ++ evs)%list ∧ Forall (file_event path) evs) ∧
  (∀ bytes, clientcmd_Write cfg = inl bytes → writable w path = true →
     r.1 = Returned None ∧ files r.2 !! path = Some (mkFile bytes (clock w))).
Proof.
  unfold clientcmd_WriteToFile, ioutil_WriteFile, ret.
  destruct (clientcmd_Write cfg) as [bytes|e]; [destruct (writable w path) eqn:Hw|]; simpl.
  - split; [by eexists|]. split; [reflexivity|]. split; [|split].
    + intros p Hp. rewrite lookup_insert_eq. by rewrite !lookup_insert_ne.
    + exists [EvOpen path; EvWrite path bytes; EvClose path].
      rewrite <- !app_assoc. split; [reflexivity|].
      constructor; [by left|]. constructor; [right; left; by eexists|].
      constructor; [by right; right|]. constructor.
    + intros b [= <-] _. split; [reflexivity|].
      rewrite lookup_insert_eq. simpl. by rewrite lookup_insert_eq.
  - split; [by eexists|]. split; [reflexivity|]. split; [done|]. split.
    + exists [EvOpen path]. split; [reflexivity|].
      constructor; [by left | constructor].
    + intros b _ [=].
  - split; [by eexists|]. split; [reflexivity|]. split; [done|]. split.
    + exists []. by rewrite app_nil_r.
    + intros b [=].
Qed.
End Commit.

Section CommitTheorems.
Context `{Libraries}.

Lemma setupSession_committed k w :
  IsActive (environ w) = true →
  committed_in_place k w (call k (setupSession k) w).
Proof.
  intros Ha. unfold committed_in_place, call. simpl.
  rewrite (setupSession_active k w Ha).
  split; [reflexivity|]. apply WriteToFile_frame.
Qed.

Lemma setupSession_started k bytes w :
  IsActive (environ w) = false →
  clientcmd_Write (config k) = inl bytes →
  writable w (session_path w) = true →
  started_session k bytes w (call k (setupSession k) w).
Proof.
  intros Ha Hb Hw. unfold started_session, call.
  assert (setupSession k w =
    let w1 := sys_close (session_path w)
                (sys_write (session_path w) bytes (sys_open_trunc (session_path w) w)) in
    let w2 := log (EvSetenv EnvVarActive "TRUE")
                (with_environ (<[EnvVarActive := "TRUE"]> (environ w1)) w1) in
    let w3 := log (EvSetenv EnvVarConfig (session_path w))
                (with_environ (<[EnvVarConfig := session_path w]> (environ w2)) w2) in
    let sh := os_Getenv (environ w3) "SHELL" in
    let w4 := log (EvExec sh [sh] (environ w3)) w3 in
    (if executable w3 sh then Replaced else Returned None, w4)) as ->.
  { unfold setupSession, bind at 1, syscall_Environ. rewrite Ha.
    unfold bind at 1, time_Now. unfold bind at 1. rewrite sessionDir_eq.
    rewrite kubePath_eq. unfold bind at 1.
    rewrite writeConfig_eq. unfold clientcmd_WriteToFile. rewrite Hb.
    unfold ioutil_WriteFile. rewrite Hw.
    unfold bind, Setenv, Getenv, syscall_Environ, syscall_Exec, ret.
    by destruct (executable _ _). }
  simpl. split; [reflexivity|]. split; [|split; [reflexivity|split]].
  - rewrite lookup_insert_eq, insert_insert_eq. reflexivity.
  - rewrite <- !app_assoc. simpl.
    replace (os_Getenv (<[EnvVarConfig:=session_path w]> (<[EnvVarActive:="TRUE"]> (environ w))) "SHELL")
      with (os_Getenv (environ w) "SHELL"); [reflexivity|].
    unfold os_Getenv. by rewrite !lookup_insert_ne.
  - unfold os_Getenv. by rewrite !lookup_insert_ne.
Qed.
End CommitTheorems.

Lemma wrap64_in_range z : int64_range z → wrap64 z = z.
Proof. unfold int64_range, wrap64. intros Hz. rewrite Z.mod_small; lia. Qed.

Lemma IsValidNamespace_true k snapshot ns :
  namespaces k = Some snapshot →
  ns ∈ corev1.Name <$> corev1.Items snapshot →
  IsValidNamespace k ns = Some true.
Proof.
  intros Hk Hin. unfold IsValidNamespace. rewrite Hk. f_equal.
  by apply contains_Name_true.
Qed.

Lemma IsValidNamespace_false k snapshot ns :
  namespaces k = Some snapshot →
  ns ∉ corev1.Name <$> corev1.Items snapshot →
  IsValidNamespace k ns = Some false.
Proof.
  intros Hk Hin. unfold IsValidNamespace. rewrite Hk. f_equal.
  apply not_true_iff_false. by rewrite contains_Name_true.
Qed.

(** C2: a mutation made outside a session ([IsActive] false), when the
    configuration serialises and the new file can be written, writes the
    mutated configuration to [<home>/.kube/tmp/config_<nanoseconds>], then sets
    [KUBESWITCH_ACTIVE] to ["TRUE"] and [KUBECONFIG] to that path, and only
    then calls [exec] on the shell named by [SHELL] with the updated
    environment, in which [IsActive] is true.  The timestamp is the clock's
    [UnixNano], which is the number of nanoseconds since the epoch as long as
    that fits [int64]. *)
Theorem inactive_commit_starts_session `{Libraries} (k : Kubeswitch) (w : World) :
  IsActive (environ w) = false →
  writable w (session_path w) = true →
  (∀ n bytes, is_Some (api.Contexts (config k) !! n) →
     let k' := mkKubeswitch (api.set_CurrentContext n (config k)) (namespaces k) in
     clientcmd_Write (config k') = inl bytes →
     started_session k' bytes w (SetContext k n w)) ∧
  (∀ ns snapshot bytes,
     namespaces k = Some snapshot →
     ns ∈ corev1.Name <$> corev1.Items snapshot →
     let k' := mkKubeswitch (set_default_namespace ns (config k)) (namespaces k) in
     clientcmd_Write (config k') = inl bytes →
     started_session k' bytes w (SetNamespace k ns w)) ∧
  IsActive (session_environ w) = true ∧
  os_Getenv (session_environ w) EnvVarConfig = session_path w ∧
  (int64_range (clock w) →
   session_path w = home w ++ "/.kube/tmp/config_" ++ pretty (clock w)).
Proof.
  intros Ha Hw. split; [|split; [|split; [|split]]].
  - intros n bytes Hn k' Hb. unfold SetContext.
    apply IsValidContext_true in Hn. rewrite Hn. simpl. fold k'.
    pose proof (setupSession_started k' bytes w Ha Hb Hw) as Hs.
    unfold call in *. by rewrite rewrap.
  - intros ns snapshot bytes Hk Hns k' Hb. unfold SetNamespace.
    rewrite (IsValidNamespace_true k snapshot ns Hk Hns). fold k'.
    pose proof (setupSession_started k' bytes w Ha Hb Hw) as Hs.
    unfold call in *. by rewrite rewrap.
  - unfold session_environ, IsActive, os_Getenv.
    rewrite lookup_insert_ne by done. by rewrite lookup_insert_eq.
  - unfold session_environ, os_Getenv. by rewrite lookup_insert_eq.
  - intros Hr. unfold session_path, time_UnixNano, fmt_d.
    by rewrite (wrap64_in_range _ Hr).
Qed.

Lemma inactive_commit_starts_session_witness :
  IsActive (environ fresh_world) = false ∧
  writable fresh_world (session_path fresh_world) = true ∧
  started_session
    (mkKubeswitch (api.set_CurrentContext "b" sample_config)
                  (namespaces sample_kubeswitch))
    "current-context: b, namespace: " fresh_world
    (SetContext (H := utc_libraries) sample_kubeswitch "b" fresh_world).
Proof.
  split; [reflexivity|]. split; [reflexivity|].
  destruct (inactive_commit_starts_session (H := utc_libraries)
              sample_kubeswitch fresh_world eq_refl eq_refl) as [Hctx _].
  exact (Hctx "b" _ (mk_is_Some _ _ eq_refl) eq_refl).
Defined.

(** The scenario of the specification: a fresh process, contexts [a] and [b],
    set-context [b]. *)
Example set_context_fresh_process :
  let c := SetContext (H := utc_libraries) sample_kubeswitch "b" fresh_world in
  let path := "/home/u/.kube/tmp/config_1600000000000000000" in
  result c = Replaced ∧
  content (after c) path = Some "current-context: b, namespace: " ∧
  environ (after c) !! "KUBESWITCH_ACTIVE" = Some "TRUE" ∧
  environ (after c) !! "KUBECONFIG" = Some path ∧
  last (trace (after c)) = Some (EvExec "/bin/zsh" ["/bin/zsh"] (environ (after c))).
Proof. vm_compute. repeat split; reflexivity. Qed.

(** ** Validation of the selection *)

Lemma set_default_namespace_alter ns cfg :
  api.Contexts (set_default_namespace ns cfg)
  = alter (api.set_Namespace ns) (api.CurrentContext cfg) (api.Contexts cfg).
Proof.
  unfold set_default_namespace. simpl. apply map_eq. intros i.
  rewrite map_lookup_imap, lookup_alter.
  destruct (decide (api.CurrentContext cfg = i)) as [->|Hne].
  - destruct (api.Contexts cfg !! i); simpl; [|reflexivity].
    by rewrite decide_True.
  - destruct (api.Contexts cfg !! i); simpl; [|reflexivity].
    by rewrite decide_False.
Qed.

Lemma set_default_namespace_resolves ns cfg :
  current_resolves cfg → current_resolves (set_default_namespace ns cfg).
Proof.
  unfold current_resolves. intros Hinv.
  change (api.CurrentContext (set_default_namespace ns cfg))
    with (api.CurrentContext cfg).
  rewrite set_default_namespace_alter. intros Hne. rewrite lookup_alter_eq.
  destruct (Hinv Hne) as [ctx ->]. by eexists.
Qed.

Section Validation.
Context `{Libraries}.

Lemma SetContext_invalid k n w :
  api.Contexts (config k) !! n = None →
  SetContext k n w
  = mkCall k (Returned (Some (errorString ("invalid context, " ++ n)))) w.
Proof.
  intros Hn. unfold SetContext. apply IsValidContext_false in Hn.
  by rewrite Hn.
Qed.

Lemma SetContext_valid k n w :
  is_Some (api.Contexts (config k) !! n) →
  SetContext k n w
  = let k' := mkKubeswitch (api.set_CurrentContext n (config k)) (namespaces k) in
    call k' (setupSession k') w.
Proof.
  intros Hn. unfold SetContext. apply IsValidContext_true in Hn.
  rewrite Hn. simpl. unfold call. by rewrite rewrap.
Qed.

Lemma SetNamespace_valid k snapshot ns w :
  namespaces k = Some snapshot →
  ns ∈ corev1.Name <$> corev1.Items snapshot →
  SetNamespace k ns w
  = let k' := mkKubeswitch (set_default_namespace ns (config k)) (namespaces k) in
    call k' (setupSession k') w.
Proof.
  intros Hk Hns. unfold SetNamespace.
  rewrite (IsValidNamespace_true k snapshot ns Hk Hns). simpl.
  unfold call. by rewrite rewrap.
Qed.

(** The commit succeeds when the configuration serialises and the file it
    writes can be opened. *)
Lemma setupSession_succeeds k bytes w :
  clientcmd_Write (config k) = inl bytes →
  writable w (commit_path w) = true →
  succeeded (setupSession k w).1.
Proof.
  intros Hb Hw. unfold commit_path in Hw.
  destruct (IsActive (environ w)) eqn:Ha.
  - destruct (setupSession_committed k w Ha) as (_ & _ & _ & _ & _ & Hok).
    left. by apply (Hok bytes).
  - destruct (setupSession_started k bytes w Ha Hb Hw) as (_ & _ & _ & _ & Hr).
    simpl in Hr. rewrite Hr. unfold succeeded.
    destruct (executable _ _); auto.
Qed.
End Validation.

(** C3: [SetContext] with a name of the configuration's context set passes
    the validation, leaves [currentContext] equal to that name and, when the
    configuration serialises and the file of the commit can be opened,
    succeeds (it returns nil or hands over to the shell); with any other name
    it returns the invalid-context error, the receiver and with it
    [currentContext] are unchanged, and the world is untouched, so no file is
    written. *)
Theorem SetContext_validates_name `{Libraries} (k : Kubeswitch) (n : string)
    (w : World) :
  (is_Some (api.Contexts (config k) !! n) →
     let c := SetContext k n w in
     api.CurrentContext (config (receiver c)) = n ∧
     api.Contexts (config (receiver c)) = api.Contexts (config k) ∧
     (∀ bytes, clientcmd_Write (config (receiver c)) = inl bytes →
               writable w (commit_path w) = true →
               succeeded (result c))) ∧
  (api.Contexts (config k) !! n = None →
     let c := SetContext k n w in
     result c = Returned (Some (errorString ("invalid context, " ++ n))) ∧
     receiver c = k ∧
     api.CurrentContext (config (receiver c)) = api.CurrentContext (config k) ∧
     after c = w).
Proof.
  split.
  - intros Hn c. subst c. rewrite (SetContext_valid k n w Hn). simpl.
    split; [reflexivity|]. split; [reflexivity|].
    intros bytes Hb Hw. by apply (setupSession_succeeds _ bytes).
  - intros Hn c. subst c. by rewrite (SetContext_invalid k n w Hn).
Qed.

Example set_context_unknown_name :
  SetContext (H := utc_libraries) sample_kubeswitch "c" fresh_world
  = mkCall sample_kubeswitch
      (Returned (Some (errorString "invalid context, c"))) fresh_world.
Proof. reflexivity. Qed.

(** C4: with a snapshot loaded, [SetNamespace] with a name that is not in the
    snapshot returns the invalid-namespace error and leaves the receiver and
    the world as they were (no file is written, the configuration is
    unchanged); with a name of the snapshot it sets the namespace of the
    context entry keyed by [currentContext] to that name and changes nothing
    else of the configuration. *)
Theorem SetNamespace_validates_name `{Libraries} (k : Kubeswitch)
    (snapshot : corev1.NamespaceList) (ns : string) (w : World) :
  namespaces k = Some snapshot →
  (ns ∉ corev1.Name <$> corev1.Items snapshot →
     SetNamespace k ns w
     = mkCall k (Returned (Some (errorString ("invalid namespace, " ++ ns)))) w) ∧
  (ns ∈ corev1.Name <$> corev1.Items snapshot →
     let cfg' := config (receiver (SetNamespace k ns w)) in
     let cur := api.CurrentContext (config k) in
     (∀ ctx, api.Contexts (config k) !! cur = Some ctx →
             api.Contexts cfg' !! cur = Some (api.set_Namespace ns ctx)) ∧
     (∀ ctx, api.Contexts cfg' !! cur = Some ctx → api.Namespace ctx = ns) ∧
     (∀ name, name ≠ cur →
              api.Contexts cfg' !! name = api.Contexts (config k) !! name) ∧
     dom (api.Contexts cfg') = dom (api.Contexts (config k)) ∧
     api.CurrentContext cfg' = cur ∧
     api.Clusters cfg' = api.Clusters (config k) ∧
     api.AuthInfos cfg' = api.AuthInfos (config k)).
Proof.
  intros Hk. split.
  - intros Hns. unfold SetNamespace.
    by rewrite (IsValidNamespace_false k snapshot ns Hk Hns).
  - intros Hns cfg' cur. subst cfg'.
    rewrite (SetNamespace_valid k snapshot ns w Hk Hns).
    cbv zeta. unfold call. cbn [receiver config].
    rewrite set_default_namespace_alter. fold cur.
    split; [|split; [|split; [|split]]].
    + intros ctx Hctx. by rewrite lookup_alter_eq, Hctx.
    + intros ctx. rewrite lookup_alter_eq.
      destruct (api.Contexts (config k) !! cur); simpl; [|discriminate].
      by intros [= <-].
    + intros name Hne. by rewrite lookup_alter_ne.
    + apply dom_alter_L.
    + by repeat split.
Qed.

Lemma SetNamespace_validates_name_witness :
  namespaces sample_kubeswitch
  = Some (corev1.mkNamespaceList
            [corev1.mkNamespace "prod"; corev1.mkNamespace "dev"]) ∧
  SetNamespace (H := utc_libraries) sample_kubeswitch "staging" fresh_world
  = mkCall sample_kubeswitch
      (Returned (Some (errorString "invalid namespace, staging"))) fresh_world.
Proof.
  split; [reflexivity|].
  apply (SetNamespace_validates_name (H := utc_libraries) sample_kubeswitch
           _ "staging" fresh_world eq_refl).
  simpl. rewrite !elem_of_cons, elem_of_nil.
  intros [E|[E|[]]]; discriminate E.
Defined.

(** ** The invariant of the configuration *)

(** C9: "[currentContext], if non-empty, is a key of [contexts]" is kept by
    [SetContext] and by [SetNamespace], however the call ends: [SetContext]
    installs only a name that passed the validation, and [SetNamespace]
    changes neither [currentContext] nor the set of keys. *)
Theorem current_context_resolves_preserved `{Libraries} (k : Kubeswitch)
    (w : World) :
  current_resolves (config k) →
  (∀ n, current_resolves (config (receiver (SetContext k n w)))) ∧
  (∀ ns, current_resolves (config (receiver (SetNamespace k ns w))) ∧
         api.CurrentContext (config (receiver (SetNamespace k ns w)))
         = api.CurrentContext (config k) ∧
         dom (api.Contexts (config (receiver (SetNamespace k ns w))))
         = dom (api.Contexts (config k))).
Proof.
  intros Hinv. split.
  - intros n. unfold SetContext. destruct (IsValidContext k n) eqn:Hv; simpl.
    + intros _. by apply IsValidContext_true.
    + exact Hinv.
  - intros ns. unfold SetNamespace.
    destruct (IsValidNamespace k ns) as [[]|]; unfold call;
      cbn [receiver config]; [|by split..].
    split; [|split; [reflexivity|]].
    + by apply set_default_namespace_resolves.
    + rewrite set_default_namespace_alter. apply dom_alter_L.
Qed.

Lemma current_context_resolves_preserved_witness :
  current_resolves sample_config ∧
  current_resolves
    (config (receiver (SetContext (H := utc_libraries) sample_kubeswitch "b"
                         fresh_world))).
Proof.
  assert (current_resolves sample_config) as Hinv.
  { intros _. by eexists. }
  split; [exact Hinv|].
  exact (proj1 (current_context_resolves_preserved (H := utc_libraries)
                  sample_kubeswitch fresh_world Hinv) "b").
Defined.

(** ** The purge of session files *)

Lemma strip_prefix_Some p s r : strip_prefix p s = Some r ↔ s = p ++ r.
Proof.
  revert s. induction p as [|a p IH]; intros s; simpl.
  - change ("" ++ r) with r. split; congruence.
  - change (String a p ++ r) with (String a (p ++ r)).
    destruct s as [|b s]; [split; discriminate|].
    case_decide as Hab.
    + subst b. rewrite IH. split; [by intros -> | by intros [= ->]].
    + split; [discriminate | intros [= ? _]; by subst].
Qed.

Lemma entry_name_Some dir path name :
  entry_name dir path = Some name ↔
  path = dir ++ "/" ++ name ∧ name ≠ "" ∧ has_slash name = false.
Proof.
  unfold entry_name. split.
  - destruct (strip_prefix (dir ++ "/") path) as [r|] eqn:E; [|discriminate].
    apply strip_prefix_Some in E. rewrite string_app_assoc in E.
    case_decide; [discriminate|].
    destruct (has_slash r) eqn:Hs; [discriminate|].
    by intros [= <-].
  - intros (-> & Hne & Hs).
    assert (strip_prefix (dir ++ "/") (dir ++ "/" ++ name) = Some name) as ->.
    { apply strip_prefix_Some. by rewrite string_app_assoc. }
    rewrite decide_False by done. by rewrite Hs.
Qed.

Lemma elem_of_dir_entries dir fs i :
  i ∈ dir_entries dir fs ↔
  ∃ f, fs !! (dir ++ "/" ++ Name i) = Some f ∧ ModTime i = modTime f ∧
       entry_name dir (dir ++ "/" ++ Name i) = Some (Name i).
Proof.
  unfold dir_entries. rewrite list_elem_of_omap. split.
  - intros ([p f] & Hin & Hi). simpl in Hi.
    apply elem_of_map_to_list in Hin.
    destruct (entry_name dir p) as [name|] eqn:E; [|discriminate].
    injection Hi as <-. simpl.
    pose proof E as E'. apply entry_name_Some in E' as (-> & _).
    by exists f.
  - intros (f & Hf & Ht & E). exists (dir ++ "/" ++ Name i, f). split.
    + by apply elem_of_map_to_list.
    + simpl. rewrite E, <- Ht. by destruct i.
Qed.

Lemma same_host_refl w : same_host w w.
Proof. by repeat split. Qed.

Lemma same_host_trans w1 w2 w3 :
  same_host w1 w2 → same_host w2 w3 → same_host w1 w3.
Proof.
  unfold same_host. intros (?&?&?&?&?&?&?) (?&?&?&?&?&?&?).
  repeat split; congruence.
Qed.

Section PurgeLemmas.
Context `{Libraries}.

Lemma Purge_unfold days w :
  let dir := home w ++ "/.kube/tmp" in
  Purge days w
  = for_range (if listable w dir
               then merge_sort by_Name (dir_entries dir (files w)) else [])
      (purge_body (delTime (clock w) days))
      (log (EvReadDir dir) w).
Proof.
  unfold Purge, bind at 1, time_Now. unfold bind at 1.
  rewrite sessionDir_eq. unfold bind at 1, ioutil_ReadDir.
  by destruct (listable w _).
Qed.

Lemma bind_Returned {A B} (c : M A) (f : A → M B) w a w' :
  c w = (Returned a, w') → bind c f w = f a w'.
Proof. unfold bind. by intros ->. Qed.

Lemma purge_body_eq del i w :
  purge_body del i w
  = let p := home w ++ "/.kube/tmp" ++ "/" ++ Name i in
    let failed := log (EvPrintln (PathError "remove" p)) (log (EvRemove p) w) in
    if time_Before (ModTime i) del then
      match files w !! p with
      | Some _ =>
          if removable w p
          then (Returned tt, with_files (delete p (files w)) (log (EvRemove p) w))
          else (Returned tt, failed)
      | None => (Returned tt, failed)
      end
    else (Returned tt, w).
Proof.
  unfold purge_body. cbv zeta.
  destruct (time_Before (ModTime i) del); [|reflexivity].
  rewrite (bind_Returned _ _ _ _ _ (sessionDir_eq w)).
  rewrite string_app_assoc. unfold bind, os_Remove.
  destruct (files w !! _); [destruct (removable w _)|]; reflexivity.
Qed.

(** One turn of the loop deletes the file of the entry when the entry is
    old enough and the removal succeeds, and changes no other file. *)
Lemma purge_body_step del i w :
  let r := purge_body del i w in
  let p := home w ++ "/.kube/tmp" ++ "/" ++ Name i in
  r.1 = Returned tt ∧ same_host w r.2 ∧
  files r.2
  = (if time_Before (ModTime i) del && removable w p
     then delete p (files w) else files w).
Proof.
  cbv zeta. rewrite purge_body_eq. cbv zeta.
  destruct (time_Before (ModTime i) del); simpl;
    [|by split; [|split; [apply same_host_refl|]]].
  destruct (files w !! _) as [f|] eqn:Hf; [destruct (removable w _)|]; simpl.
  - by repeat split.
  - by repeat split.
  - repeat split. destruct (removable w _); [|reflexivity].
    symmetry. by apply delete_id.
Qed.

(** The whole loop: a path loses its file exactly when some listed entry
    names it, is old enough and can be removed. *)
Lemma purge_loop del l w :
  let r := for_range l (purge_body del) w in
  let doomed p :=
    existsb (λ i, bool_decide (p = home w ++ "/.kube/tmp" ++ "/" ++ Name i)
                  && time_Before (ModTime i) del && removable w p) l in
  r.1 = Returned tt ∧ same_host w r.2 ∧
  ∀ p, files r.2 !! p = if doomed p then None else files w !! p.
Proof.
  revert w. induction l as [|i l IH]; intros w; simpl.
  - by split; [|split; [apply same_host_refl|]].
  - unfold bind. destruct (purge_body_step del i w) as (Hr & Hh & Hf).
    destruct (purge_body del i w) as [r1 w1]. simpl in Hr, Hh, Hf. subst r1.
    destruct (IH w1) as (Hr' & Hh' & Hf').
    split; [exact Hr'|]. split; [by eapply same_host_trans|].
    intros p. rewrite Hf'. destruct Hh as (_ & _ & Hhome & _ & _ & Hrm & _).
    rewrite Hhome, Hrm. rewrite Hf.
    destruct (existsb _ l); [by rewrite orb_true_r|]. rewrite orb_false_r.
    case_bool_decide as Hp.
    + subst p. simpl. destruct (time_Before (ModTime i) del && removable w _); simpl.
      * by rewrite lookup_delete_eq.
      * reflexivity.
    + simpl. destruct (time_Before (ModTime i) del && removable w _); simpl;
        [by rewrite lookup_delete_ne|reflexivity].
Qed.
End PurgeLemmas.

Lemma existsb_pointwise {A} (f g : A → bool) (l : list A) :
  (∀ x, f x = g x) → existsb f l = existsb g l.
Proof. intros E. induction l as [|x l IH]; simpl; [reflexivity|]. by rewrite E, IH. Qed.

Lemma purged_lookup dir cutoff rm fs p :
  purged dir cutoff rm fs !! p
  = match fs !! p with
    | Some f =>
        if decide (is_Some (entry_name dir p) ∧ modTime f < cutoff ∧ rm p = true)
        then None else Some f
    | None => None
    end.
Proof.
  unfold purged. rewrite map_lookup_filter.
  destruct (fs !! p) as [f|]; simpl; [|reflexivity].
  case_decide; [by rewrite option_guard_False by tauto|].
  by rewrite option_guard_True.
Qed.

Lemma purged_idemp dir cutoff rm fs :
  purged dir cutoff rm (purged dir cutoff rm fs) = purged dir cutoff rm fs.
Proof.
  apply map_eq. intros p. rewrite !purged_lookup.
  destruct (fs !! p) as [f|]; [|reflexivity].
  case_decide; [reflexivity|]. by rewrite decide_False.
Qed.

(** The entries that [ioutil.ReadDir] lists and the loop dooms are the nodes
    that [purged] leaves out. *)
Lemma doomed_iff dir del rm fs p :
  existsb (λ i, bool_decide (p = dir ++ "/" ++ Name i)
                && time_Before (ModTime i) del && rm p)
          (merge_sort by_Name (dir_entries dir fs)) = true ↔
  ∃ f, fs !! p = Some f ∧ is_Some (entry_name dir p) ∧ modTime f < del ∧ rm p = true.
Proof.
  rewrite existsb_exists. split.
  - intros (i & Hin & Hc). apply list_elem_of_In in Hin.
    rewrite (merge_sort_Permutation by_Name) in Hin.
    apply elem_of_dir_entries in Hin as (f & Hf & Ht & E).
    apply andb_true_iff in Hc as [Hc Hrm]. apply andb_true_iff in Hc as [Hp Hlt].
    apply bool_decide_eq_true in Hp. subst p.
    unfold time_Before in Hlt. apply Z.ltb_lt in Hlt.
    exists f. rewrite E. split; [done|]. split; [by eexists|]. split; [lia|done].
  - intros (f & Hf & [name E] & Hlt & Hrm).
    exists (mkFileInfo name (modTime f)). simpl.
    pose proof E as E'. apply entry_name_Some in E' as (-> & _). split.
    + apply list_elem_of_In. rewrite (merge_sort_Permutation by_Name).
      apply elem_of_dir_entries. by exists f.
    + rewrite bool_decide_eq_true_2 by done. rewrite Hrm. simpl.
      rewrite andb_true_r. unfold time_Before. by apply Z.ltb_lt.
Qed.

Section PurgeTheorems.
Context `{Libraries}.

(** What [Purge] does to the world. *)
Lemma Purge_effect days w :
  let dir := home w ++ "/.kube/tmp" in
  (Purge days w).1 = Returned tt ∧
  same_host w (Purge days w).2 ∧
  files (Purge days w).2
  = (if listable w dir
     then purged dir (delTime (clock w) days) (removable w) (files w)
     else files w).
Proof.
  cbv zeta. rewrite Purge_unfold. cbv zeta.
  set (dir := home w ++ "/.kube/tmp"). set (del := delTime (clock w) days).
  destruct (purge_loop del
              (if listable w dir
               then merge_sort by_Name (dir_entries dir (files w)) else [])
              (log (EvReadDir dir) w)) as (Hr & Hh & Hf).
  split; [exact Hr|]. split; [exact Hh|].
  apply map_eq. intros p. rewrite Hf. clear Hr Hh Hf.
  change (home (log (EvReadDir dir) w)) with (home w).
  change (removable (log (EvReadDir dir) w)) with (removable w).
  change (files (log (EvReadDir dir) w)) with (files w).
  destruct (listable w dir); [|reflexivity].
  rewrite purged_lookup.
  match goal with |- (if ?b then _ else _) = _ => destruct b eqn:Hd end.
  - erewrite (existsb_pointwise _ _) in Hd; [apply doomed_iff in Hd|].
    + destruct Hd as (f & -> & ?). by rewrite decide_True.
    + intros i. unfold dir. by rewrite string_app_assoc.
  - destruct (files w !! p) as [f|] eqn:Hf; [|reflexivity].
    case_decide as Hc; [|reflexivity].
    assert (existsb (λ i, bool_decide (p = dir ++ "/" ++ Name i)
              && time_Before (ModTime i) del && removable w p)
        (merge_sort by_Name (dir_entries dir (files w))) = true) as Hd'.
    { apply doomed_iff. by exists f. }
    erewrite (existsb_pointwise _ _) in Hd; [rewrite Hd' in Hd; discriminate|].
    intros i. unfold dir. by rewrite string_app_assoc.
Qed.
End PurgeTheorems.

(** C7: [Purge] returns normally and deletes only entries of the session
    directory that were last modified strictly before the cutoff
    [now.AddDate(0, 0, -days)]: a node that is not such an entry, in
    particular an entry modified at or after the cutoff, is never touched, and
    nothing is created.  When the directory can be listed and the removals
    succeed it deletes exactly those entries.  It is idempotent: run again on
    the world it left, at a clock reading that gives the same cutoff, it
    deletes nothing further. *)
Theorem Purge_deletes_entries_before_cutoff `{Libraries} (days : Z) (w : World) :
  let dir := home w ++ "/.kube/tmp" in
  let cutoff := delTime (clock w) days in
  let w' := (Purge days w).2 in
  (Purge days w).1 = Returned tt ∧
  (∀ p f, files w !! p = Some f →
          ¬ (session_entry w p ∧ modTime f < cutoff) →
          files w' !! p = Some f) ∧
  (∀ p f, files w' !! p = Some f → files w !! p = Some f) ∧
  (listable w dir = true →
   (∀ p, session_entry w p → removable w p = true) →
   ∀ p, files w' !! p
        = match files w !! p with
          | Some f =>
              if decide (session_entry w p ∧ modTime f < cutoff)
              then None else Some f
          | None => None
          end) ∧
  (∀ t, delTime t days = cutoff →
        files (Purge days (with_clock t w')).2 = files w') ∧
  (int64_range days → days ≠ - 2 ^ 63 →
   cutoff = time_AddDate (clock w) 0 0 (- days)).
Proof.
  intros dir cutoff w'.
  destruct (Purge_effect days w) as (Hr & Hh & Hf). fold dir cutoff w' in Hh, Hf.
  split; [exact Hr|]. split; [|split; [|split; [|split]]].
  - intros p f Hp Hn. rewrite Hf. destruct (listable w dir); [|exact Hp].
    rewrite purged_lookup, Hp. rewrite decide_False; [reflexivity|].
    intros (? & ? & _). apply Hn. by split.
  - intros p f. rewrite Hf. destruct (listable w dir); [|done].
    rewrite purged_lookup. destruct (files w !! p) as [g|]; [|done].
    by case_decide.
  - intros Hl Hrm p. rewrite Hf, Hl, purged_lookup.
    destruct (files w !! p) as [f|]; [|reflexivity].
    destruct (decide (session_entry w p ∧ modTime f < cutoff)) as [[He Hlt]|Hn].
    + rewrite decide_True; [reflexivity|]. by split; [|split; [|apply Hrm]].
    + rewrite decide_False; [reflexivity|]. intros (? & ? & _). apply Hn. by split.
  - intros t Ht.
    destruct (Purge_effect days (with_clock t w')) as (_ & _ & Hf2).
    rewrite Hf2. clear Hf2.
    change (files (with_clock t w')) with (files w').
    change (home (with_clock t w')) with (home w').
    change (listable (with_clock t w')) with (listable w').
    change (removable (with_clock t w')) with (removable w').
    change (clock (with_clock t w')) with t. rewrite Ht.
    destruct Hh as (_ & _ & Hhome & _ & Hlist & Hrm & _).
    rewrite Hhome, Hlist, Hrm. fold dir. rewrite Hf.
    destruct (listable w dir); [|reflexivity]. apply purged_idemp.
  - intros Hd Hmin. unfold cutoff, delTime. f_equal.
    rewrite wrap64_in_range; [lia|]. unfold int64_range in *. lia.
Qed.

(** The scenario of the specification: files modified one, three and ten days
    ago and [days = 2]; the second run deletes nothing further. *)
Example purge_two_days :
  let once := (Purge (H := utc_libraries) 2 purge_world).2 in
  let twice := (Purge (H := utc_libraries) 2 once).2 in
  (map_to_list (files once)).*1
  = ["/home/u/.kube/config"; "/home/u/.kube/tmp/config_1"] ∧
  trace once = [EvReadDir "/home/u/.kube/tmp";
                EvRemove "/home/u/.kube/tmp/config_10";
                EvRemove "/home/u/.kube/tmp/config_3"] ∧
  files twice = files once.
Proof. vm_compute. repeat split; reflexivity. Qed.

(** C10: when the session directory cannot be listed, [Purge] returns
    normally, its only system call is the failed listing (it removes nothing
    and prints nothing), and every file is left as it was: the listing error
    is dropped, and the call ends as it does on a directory without entries. *)
Theorem Purge_ignores_listing_error `{Libraries} (days : Z) (w : World) :
  listable w (home w ++ "/.kube/tmp") = false →
  Purge days w = (Returned tt, log (EvReadDir (home w ++ "/.kube/tmp")) w) ∧
  files (Purge days w).2 = files w ∧
  trace (Purge days w).2 = (trace w ++ [EvReadDir (home w ++ "/.kube/tmp")])%list ∧
  (∀ w0, dir_entries (home w0 ++ "/.kube/tmp") (files w0) = [] →
         Purge days w0
         = (Returned tt, log (EvReadDir (home w0 ++ "/.kube/tmp")) w0)).
Proof.
  intros Hl.
  assert (Purge days w = (Returned tt, log (EvReadDir (home w ++ "/.kube/tmp")) w))
    as E.
  { rewrite Purge_unfold. cbv zeta. by rewrite Hl. }
  split; [exact E|]. rewrite E. split; [reflexivity|]. split; [reflexivity|].
  intros w0 He. rewrite Purge_unfold. cbv zeta. rewrite He.
  by destruct (listable w0 _).
Qed.

Lemma Purge_ignores_listing_error_witness :
  listable unlistable_world (home unlistable_world ++ "/.kube/tmp") = false ∧
  files (Purge (H := utc_libraries) 2 unlistable_world).2 = files unlistable_world.
Proof.
  split; [reflexivity|].
  exact (proj1 (proj2 (Purge_ignores_listing_error (H := utc_libraries) 2
                         unlistable_world eq_refl))).
Defined.

(** ** Writing the configuration *)

Lemma string_take_all s : string_take (String.length s) s = s.
Proof. induction s as [|c s IH]; [reflexivity|]. simpl. by rewrite IH. Qed.

Lemma string_take_take n m s :
  string_take n (string_take m s) = string_take (Nat.min n m) s.
Proof.
  revert m s. induction n as [|n IH]; intros [|m] [|c s]; simpl; try reflexivity.
  by rewrite IH.
Qed.

Lemma piece_contents_leading pieces done c :
  c ∈ piece_contents pieces done → ∃ n, c = string_take n done.
Proof.
  unfold piece_contents. rewrite elem_of_app, list_elem_of_fmap, list_elem_of_singleton.
  intros [(n & -> & _)| ->]; [by exists n|].
  exists (String.length done). by rewrite string_take_all.
Qed.

Lemma made_lookup (ds : list string) (fs : gmap string File) (t : Z) (p : string) :
  foldr (λ d fs, <[d := mkFile "" t]> fs) fs ds !! p
  = if decide (p ∈ ds) then Some (mkFile "" t) else fs !! p.
Proof.
  induction ds as [|d ds IH]; simpl.
  - destruct (decide (p ∈ [])) as [Hin|]; [by apply elem_of_nil in Hin | reflexivity].
  - destruct (decide (p = d)) as [->|Hne].
    + rewrite lookup_insert_eq. rewrite decide_True; [reflexivity | apply list_elem_of_here].
    + rewrite lookup_insert_ne by done. rewrite IH.
      destruct (decide (p ∈ ds)) as [Hin|Hnin], (decide (p ∈ d :: ds)) as [Hin'|Hnin'];
        try reflexivity.
      * exfalso. apply Hnin'. by apply list_elem_of_further.
      * apply elem_of_cons in Hin' as [?|?]; [congruence | contradiction].
Qed.

Section DiskCalls.
Context {D : FileSystem}.

(** Every stage of [ioutil.WriteFile] differs from the start in the file at
    [path] alone, which holds what it held or a leading part of [bytes]. *)
Lemma WriteFile_stage path bytes w w' :
  w' ∈ Disk.stages (Disk.WriteFile_run path bytes w) →
  same_host w w' ∧
  (∀ p, p ≠ path → files w' !! p = files w !! p) ∧
  (∃ evs, trace w' = (trace w ++ evs)%list ∧ Forall (file_event path) evs) ∧
  (content w' path = content w path ∨
   ∃ n, content w' path = Some (string_take n bytes)).
Proof.
  unfold Disk.stages, Disk.WriteFile_run.
  destruct (bool_decide (path = "") || negb (writable w path)).
  - cbn [Disk.during Disk.final]. rewrite app_nil_l, list_elem_of_singleton.
    intros ->. split; [by repeat split|]. split; [done|]. split; [|by left].
    exists [EvOpen path]. split; [reflexivity|]. constructor; [by left | constructor].
  - cbn [Disk.during Disk.final]. cbv zeta.
    set (n := match write_stops path with
              | Some n => Nat.min n (String.length bytes)
              | None => String.length bytes
              end).
    rewrite elem_of_app, elem_of_cons, list_elem_of_fmap, list_elem_of_singleton.
    intros [[->|(c & -> & Hc)]| ->].
    + split; [by repeat split|]. split.
      { intros p Hp. simpl. by rewrite lookup_insert_ne. }
      split.
      { exists [EvOpen path]. split; [reflexivity|].
        constructor; [by left | constructor]. }
      right. exists 0%nat. unfold content. simpl. by rewrite lookup_insert_eq.
    + split; [by repeat split|]. split.
      { intros p Hp. simpl. by rewrite !lookup_insert_ne. }
      split.
      { exists [EvOpen path; EvWrite path bytes]. split.
        - simpl. by rewrite <- app_assoc.
        - constructor; [by left|]. constructor; [right; left; by eexists|].
          constructor. }
      right. apply piece_contents_leading in Hc as [m ->].
      exists (Nat.min m n). unfold content. simpl. rewrite lookup_insert_eq. simpl.
      by rewrite string_take_take.
    + split; [by repeat split|]. split.
      { intros p Hp. simpl. by rewrite !lookup_insert_ne. }
      split.
      { exists [EvOpen path; EvWrite path bytes; EvClose path]. split.
        - simpl. by rewrite <- !app_assoc.
        - constructor; [by left|]. constructor; [right; left; by eexists|].
          constructor; [by right; right|]. constructor. }
      right. exists n. unfold content. simpl. by rewrite lookup_insert_eq.
Qed.

(** A [WriteFile] that returns no error has emptied the file, has put all
    the bytes into it and has made three calls. *)
Lemma WriteFile_final path bytes w :
  let r := Disk.WriteFile_run path bytes w in
  (Disk.failure r = None →
     files (Disk.final r) !! path = Some (mkFile bytes (clock w)) ∧
     trace (Disk.final r)
     = (trace w ++ [EvOpen path; EvWrite path bytes; EvClose path])%list ∧
     ∃ w1, w1 ∈ Disk.during r ∧ content w1 path = Some "") ∧
  (path ≠ "" → writable w path = true → write_stops path = None →
   close_fails path = false → Disk.failure r = None).
Proof.
  cbv zeta. unfold Disk.WriteFile_run.
  destruct (bool_decide (path = "") || negb (writable w path)) eqn:Ho.
  - cbn [Disk.failure]. split; [intros [=]|].
    intros Hp Hw _ _. apply orb_true_iff in Ho as [Ho|Ho].
    + by apply bool_decide_eq_true in Ho.
    + by rewrite Hw in Ho.
  - cbn [Disk.during Disk.final Disk.failure]. cbv zeta.
    set (n := match write_stops path with
              | Some n => Nat.min n (String.length bytes)
              | None => String.length bytes
              end).
    split.
    + destruct (decide (n < String.length bytes)%nat) as [|Hn]; [intros [=]|].
      intros _.
      assert (n = String.length bytes) as ->
        by (subst n; destruct (write_stops path); lia).
      rewrite string_take_all. split; [|split].
      * simpl. by rewrite lookup_insert_eq.
      * simpl. by rewrite <- !app_assoc.
      * exists (sys_open_trunc path w). split; [apply list_elem_of_here|].
        unfold content. simpl. by rewrite lookup_insert_eq.
    + intros _ _ Hs Hc. subst n. rewrite Hs, Hc.
      destruct (decide _) as [Hlt|]; [lia | reflexivity].
Qed.

(** [os.MkdirAll] makes the missing directories of the chain, or some of
    them, and touches nothing else. *)
Lemma MkdirAll_effect dir w :
  let m := Disk.os_MkdirAll dir w in
  same_host w m.1 ∧
  trace m.1 = (trace w ++ [EvMkdirAll dir])%list ∧
  (∀ p, files m.1 !! p = files w !! p ∨
        (p ∈ path_chain dir ∧ Disk.present w p = false ∧
         files m.1 !! p = Some (mkFile "" (clock w)))) ∧
  (mkdir_stops dir = None → m.2 = None) ∧
  (∀ e, m.2 = Some e → ∃ d, e = PathError "mkdir" d).
Proof.
  cbv zeta. unfold Disk.os_MkdirAll.
  set (todo := filter (λ d, Disk.present w d = false) (path_chain dir)).
  assert (∀ ds, ds ⊆ todo →
    let w' := with_files (foldr (λ d fs, <[d := mkFile "" (clock w)]> fs) (files w) ds)
                (log (EvMkdirAll dir) w) in
    same_host w w' ∧
    trace w' = (trace w ++ [EvMkdirAll dir])%list ∧
    (∀ p, files w' !! p = files w !! p ∨
          (p ∈ path_chain dir ∧ Disk.present w p = false ∧
           files w' !! p = Some (mkFile "" (clock w))))) as Hmade.
  { intros ds Hds. cbv zeta. split; [by repeat split|]. split; [reflexivity|].
    intros p. simpl. rewrite made_lookup.
    destruct (decide (p ∈ ds)) as [Hin|]; [right | by left].
    apply Hds in Hin. apply list_elem_of_filter in Hin as [Hp Hin]. by repeat split. }
  destruct (mkdir_stops dir) as [n|] eqn:Hs.
  - destruct (todo !! n) as [d|] eqn:Hd; cbn [fst snd].
    + destruct (Hmade (take n todo)) as (H1 & H2 & H3).
      { intros x Hx. apply elem_of_take in Hx as (i & Hi & _).
        by eapply list_elem_of_lookup_2. }
      split; [exact H1|]. split; [exact H2|]. split; [exact H3|].
      split; [intros [=] | intros e [= <-]; by eexists].
    + destruct (Hmade todo) as (H1 & H2 & H3); [done|].
      split; [exact H1|]. split; [exact H2|]. split; [exact H3|].
      split; [done | intros e [=]].
  - cbn [fst snd]. destruct (Hmade todo) as (H1 & H2 & H3); [done|].
    split; [exact H1|]. split; [exact H2|]. split; [exact H3|].
    split; [done | intros e [=]].
Qed.
End DiskCalls.

Section DiskCommit.
Context {L : Libraries} {D : FileSystem}.

Lemma Disk_writeConfig_eq k path w :
  Disk.writeConfig k path w = Disk.clientcmd_WriteToFile (config k) path w.
Proof. unfold Disk.writeConfig. apply rewrap. Qed.

(** What a reader of the destination finds while [WriteToFile] runs. *)
Lemma WriteToFile_stage cfg path bytes w w' :
  clientcmd_Write cfg = inl bytes →
  w' ∈ Disk.stages (Disk.WriteToFile_run cfg path w) →
  content w' path = content w path ∨
  ∃ n, content w' path = Some (string_take n bytes).
Proof.
  intros Hb. unfold Disk.WriteToFile_run. rewrite Hb. cbv zeta.
  destruct (Disk.present w (filepath_Dir path)).
  { intros Hin. by apply WriteFile_stage in Hin as (_ & _ & _ & Hc). }
  pose proof (MkdirAll_effect (filepath_Dir path) w) as (_ & _ & Hf & _).
  cbv zeta in Hf.
  destruct (Disk.os_MkdirAll (filepath_Dir path) w) as [w1 e]. cbn [fst snd] in *.
  assert (content w1 path = content w path ∨
          ∃ n, content w1 path = Some (string_take n bytes)) as Hw1.
  { unfold content. destruct (Hf path) as [->|(_ & _ & ->)]; [by left|].
    right. by exists 0%nat. }
  destruct e as [e|]; unfold Disk.stages; cbn [Disk.during Disk.final].
  - rewrite app_nil_l, list_elem_of_singleton. by intros ->.
  - rewrite <- app_comm_cons, elem_of_cons. intros [->|Hin]; [exact Hw1|].
    apply WriteFile_stage in Hin as (_ & _ & _ & [Hc|Hc]); [|by right].
    by rewrite Hc.
Qed.

(** The world [WriteToFile] leaves differs from the one it found by nothing
    but the write of the destination. *)
Lemma WriteToFile_wrote_only cfg path w :
  wrote_only path w (Disk.final (Disk.WriteToFile_run cfg path w)).
Proof.
  unfold wrote_only, Disk.WriteToFile_run. cbv zeta.
  destruct (clientcmd_Write cfg) as [bytes|e].
  2:{ cbn [Disk.final]. split; [reflexivity|]. split; [by left|].
      exists []. split; [constructor|]. left. by rewrite app_nil_r. }
  destruct (Disk.present w (filepath_Dir path)) eqn:Hd.
  { destruct (WriteFile_stage path bytes w
                (Disk.final (Disk.WriteFile_run path bytes w)))
      as ((He & _) & Hf & (evs & Ht & Hev) & _).
    { unfold Disk.stages. apply elem_of_app. right. apply list_elem_of_here. }
    split; [exact He|]. split; [intros p Hp; left; by apply Hf|].
    exists evs. split; [exact Hev | by left]. }
  pose proof (MkdirAll_effect (filepath_Dir path) w) as ((He1 & Hc1 & _) & Ht1 & Hf1 & _).
  cbv zeta in *.
  destruct (Disk.os_MkdirAll (filepath_Dir path) w) as [w1 e]. cbn [fst snd] in *.
  destruct e as [e|]; cbn [Disk.final].
  - split; [exact He1|]. split.
    + intros p _. destruct (Hf1 p) as [->|(? & ? & ?)]; [by left | by right].
    + exists []. split; [constructor|]. right. by split.
  - destruct (WriteFile_stage path bytes w1
                (Disk.final (Disk.WriteFile_run path bytes w1)))
      as ((He & _) & Hf & (evs & Ht & Hev) & _).
    { unfold Disk.stages. apply elem_of_app. right. apply list_elem_of_here. }
    split; [by rewrite He|]. split.
    + intros p Hp. rewrite (Hf p Hp).
      destruct (Hf1 p) as [->|(? & ? & ?)]; [by left | by right].
    + exists evs. split; [exact Hev|]. right. split; [reflexivity|].
      rewrite Ht, Ht1. by rewrite <- app_assoc.
Qed.

(** When [WriteToFile] returns no error the destination, emptied on the
    way, holds the serialised configuration; a write that nothing stops
    returns no error; and an error is the serialiser's or that of one of the
    steps. *)
Lemma WriteToFile_outcome cfg path bytes w :
  clientcmd_Write cfg = inl bytes →
  let r := Disk.WriteToFile_run cfg path w in
  (Disk.failure r = None →
     files (Disk.final r) !! path = Some (mkFile bytes (clock w)) ∧
     ∃ w1, w1 ∈ Disk.during r ∧ content w1 path = Some "") ∧
  (Disk.goes_through path w → Disk.failure r = None) ∧
  (∀ e, Disk.failure r = Some e →
     ∃ op p, e = PathError op p ∧
             (op = "mkdir" ∨ op = "open" ∨ op = "write" ∨ op = "close")).
Proof.
  intros Hb. cbv zeta. unfold Disk.WriteToFile_run. rewrite Hb. cbv zeta.
  assert (∀ w0 e, Disk.failure (Disk.WriteFile_run path bytes w0) = Some e →
            ∃ op p, e = PathError op p ∧
                    (op = "mkdir" ∨ op = "open" ∨ op = "write" ∨ op = "close"))
    as Herr.
  { intros w0 e. unfold Disk.WriteFile_run.
    destruct (bool_decide (path = "") || negb (writable w0 path)); cbn [Disk.failure].
    - intros [= <-]. eexists _, _. split; [reflexivity | tauto].
    - cbv zeta. destruct (decide _); [|destruct (close_fails path)].
      + intros [= <-]. eexists _, _. split; [reflexivity | tauto].
      + intros [= <-]. eexists _, _. split; [reflexivity | tauto].
      + intros [=]. }
  destruct (Disk.present w (filepath_Dir path)) eqn:Hd.
  { destruct (WriteFile_final path bytes w) as [Hok Hgo]. cbv zeta in *.
    split; [|split].
    - intros Hn. destruct (Hok Hn) as (? & _ & ?). by split.
    - intros (Hp & Hw & _ & Hs & Hc). by apply Hgo.
    - apply Herr. }
  pose proof (MkdirAll_effect (filepath_Dir path) w)
    as ((_ & Hc1 & _ & Hw1 & _) & _ & _ & Hm & Hme).
  cbv zeta in *.
  destruct (Disk.os_MkdirAll (filepath_Dir path) w) as [w1 e]. cbn [fst snd] in *.
  destruct e as [e|]; cbn [Disk.during Disk.final Disk.failure].
  - split; [intros [=]|]. split.
    + intros (_ & _ & [Hx|Hx] & _); [congruence|]. by apply Hm in Hx.
    + intros e' [= <-]. destruct (Hme e eq_refl) as [d ->].
      eexists _, _. split; [reflexivity | tauto].
  - destruct (WriteFile_final path bytes w1) as [Hok Hgo]. cbv zeta in *.
    split; [|split].
    + intros Hn. destruct (Hok Hn) as (Hf & _ & w2 & Hin & Hc). rewrite Hc1 in Hf.
      split; [exact Hf|]. exists w2. split; [by apply list_elem_of_further | exact Hc].
    + intros (Hp & Hw & _ & Hs & Hc). apply Hgo; try done. by rewrite Hw1.
    + apply Herr.
Qed.

(** A [WriteToFile] to the path in [KUBECONFIG] is a commit in place. *)
Lemma WriteToFile_in_place k w :
  in_place_commit k w
    (call k (Disk.clientcmd_WriteToFile (config k)
               (os_Getenv (environ w) EnvVarConfig)) w).
Proof.
  unfold in_place_commit, call, Disk.clientcmd_WriteToFile, Disk.returning.
  cbn [receiver result after fst snd].
  split; [reflexivity|]. split; [by eexists|].
  split; [apply WriteToFile_wrote_only|].
  intros bytes Hb.
  destruct (WriteToFile_outcome (config k) (os_Getenv (environ w) EnvVarConfig)
              bytes w Hb) as (Hok & Hgo & _).
  cbv zeta in *. split.
  - intros [= Hn]. by apply Hok.
  - intros Hg. by rewrite (Hgo Hg).
Qed.

(** Inside a session the commit is one [WriteToFile] to the path in
    [KUBECONFIG]. *)
Lemma Disk_setupSession_active k w :
  IsActive (environ w) = true →
  Disk.setupSession k w
  = Disk.clientcmd_WriteToFile (config k) (os_Getenv (environ w) EnvVarConfig) w.
Proof.
  intros Ha. unfold Disk.setupSession, bind at 1, syscall_Environ. rewrite Ha.
  unfold bind at 1, Getenv. rewrite rewrap. apply Disk_writeConfig_eq.
Qed.

(** Outside a session the commit is a [WriteToFile] to a new session file
    and then, if that returned no error, the start of the shell. *)
Lemma Disk_setupSession_inactive k w res :
  IsActive (environ w) = false →
  res = Disk.clientcmd_WriteToFile (config k) (session_path w) w →
  Disk.setupSession k w
  = match res with
    | (Returned (Some e), w1) => (Returned (Some e), w1)
    | (Returned None, w1) =>
        (run Setenv EnvVarActive "TRUE";
         run Setenv EnvVarConfig (session_path w);
         do sh0 <- Getenv "SHELL";
         do sh1 <- Getenv "SHELL";
         do envv <- syscall_Environ;
         run syscall_Exec sh0 [sh1] envv;
         ret None) w1
    | (Replaced, w1) => (Replaced, w1)
    | (Panicked, w1) => (Panicked, w1)
    end.
Proof.
  intros Ha ->. unfold Disk.setupSession, bind at 1, syscall_Environ. rewrite Ha.
  unfold bind at 1, time_Now. unfold bind at 1. rewrite sessionDir_eq.
  rewrite kubePath_eq. unfold bind at 1. rewrite Disk_writeConfig_eq.
  by destruct (Disk.clientcmd_WriteToFile _ _ _) as [[[e|]| |] w1].
Qed.

Lemma setupSession_inactive k w res :
  IsActive (environ w) = false →
  res = clientcmd_WriteToFile (config k) (session_path w) w →
  setupSession k w
  = match res with
    | (Returned (Some e), w1) => (Returned (Some e), w1)
    | (Returned None, w1) =>
        (run Setenv EnvVarActive "TRUE";
         run Setenv EnvVarConfig (session_path w);
         do sh0 <- Getenv "SHELL";
         do sh1 <- Getenv "SHELL";
         do envv <- syscall_Environ;
         run syscall_Exec sh0 [sh1] envv;
         ret None) w1
    | (Replaced, w1) => (Replaced, w1)
    | (Panicked, w1) => (Panicked, w1)
    end.
Proof.
  intros Ha ->. unfold setupSession, bind at 1, syscall_Environ. rewrite Ha.
  unfold bind at 1, time_Now. unfold bind at 1. rewrite sessionDir_eq.
  rewrite kubePath_eq. unfold bind at 1. rewrite writeConfig_eq.
  by destruct (clientcmd_WriteToFile _ _ _) as [[[e|]| |] w1].
Qed.


Lemma Disk_SetContext_valid k n w :
  is_Some (api.Contexts (config k) !! n) →
  let k' := mkKubeswitch (api.set_CurrentContext n (config k)) (namespaces k) in
  Disk.SetContext k n w = call k' (Disk.setupSession k') w ∧
  Disk.Legacy.SetContext k n w = call k' (Disk.setupSession k') w.
Proof.
  intros Hn k'. unfold Disk.SetContext, Disk.Legacy.SetContext.
  apply IsValidContext_true in Hn. rewrite Hn. simpl. fold k'.
  unfold call. by rewrite !rewrap.
Qed.

Lemma Disk_SetNamespace_valid k snapshot ns w :
  namespaces k = Some snapshot →
  ns ∈ corev1.Name <$> corev1.Items snapshot →
  let k' := mkKubeswitch (set_default_namespace ns (config k)) (namespaces k) in
  Disk.SetNamespace k ns w = call k' (Disk.setupSession k') w ∧
  Disk.Legacy.SetNamespace k ns w
  = call k' (Disk.clientcmd_WriteToFile (config k')
               (os_Getenv (environ w) EnvVarConfig)) w.
Proof.
  intros Hk Hns k'. unfold Disk.SetNamespace, Disk.Legacy.SetNamespace.
  rewrite (IsValidNamespace_true k snapshot ns Hk Hns). fold k'.
  unfold call. rewrite !Getenv_bind, !rewrap. by rewrite Disk_writeConfig_eq.
Qed.

(** Where the directory of the destination exists and nothing stops the
    write once the file is open, [WriteToFile] is what the definitions of the
    package above take it to be. *)
Lemma Disk_WriteToFile_agrees cfg path w :
  Disk.present w (filepath_Dir path) = true → path ≠ "" →
  write_stops path = None → close_fails path = false →
  Disk.clientcmd_WriteToFile cfg path w = clientcmd_WriteToFile cfg path w.
Proof.
  intros Hd Hp Hs Hc.
  unfold Disk.clientcmd_WriteToFile, Disk.returning, Disk.WriteToFile_run,
    clientcmd_WriteToFile.
  destruct (clientcmd_Write cfg) as [bytes|e]; [|reflexivity].
  cbv zeta. rewrite Hd. unfold Disk.WriteFile_run, ioutil_WriteFile.
  rewrite bool_decide_eq_false_2 by done. rewrite orb_false_l.
  destruct (writable w path); [|reflexivity].
  cbn [negb Disk.failure Disk.final]. cbv zeta. rewrite Hs, Hc, string_take_all.
  destruct (decide _) as [Hlt|]; [lia|].
  unfold Disk.sys_written, sys_write. simpl. by rewrite lookup_insert_eq.
Qed.
Lemma Disk_setupSession_agrees k w :
  let path := commit_path w in
  Disk.present w (filepath_Dir path) = true → path ≠ "" →
  write_stops path = None → close_fails path = false →
  Disk.setupSession k w = setupSession k w.
Proof.
  cbv zeta. unfold commit_path.
  destruct (IsActive (environ w)) eqn:Ha; intros Hd Hp Hs Hc.
  - rewrite (Disk_setupSession_active k w Ha), (setupSession_active k w Ha).
    by apply Disk_WriteToFile_agrees.
  - rewrite (Disk_setupSession_inactive k w _ Ha eq_refl).
    rewrite (setupSession_inactive k w _ Ha eq_refl).
    by rewrite Disk_WriteToFile_agrees.
Qed.

(** So the two methods as defined with the package are the methods in full
    on every run in which the directory of the commit file is in place, as
    that of a session file is, and nothing stops the write once the file is
    open. *)
Lemma Disk_methods_agree k w :
  let path := commit_path w in
  Disk.present w (filepath_Dir path) = true → path ≠ "" →
  write_stops path = None → close_fails path = false →
  (∀ n, Disk.SetContext k n w = SetContext k n w) ∧
  (∀ ns, Disk.SetNamespace k ns w = SetNamespace k ns w).
Proof.
  cbv zeta. intros Hd Hp Hs Hc. split.
  - intros n. unfold Disk.SetContext, SetContext.
    destruct (negb _); [reflexivity|]. unfold call. rewrite !rewrap.
    by rewrite Disk_setupSession_agrees.
  - intros ns. unfold Disk.SetNamespace, SetNamespace.
    destruct (IsValidNamespace k ns) as [[|]|]; try reflexivity.
    unfold call. rewrite !rewrap. by rewrite Disk_setupSession_agrees.
Qed.
End DiskCommit.

(** C1: a mutation made inside an active session ([IsActive] true) commits in
    place.  For [SetContext] with a context of the configuration and for
    [SetNamespace] with a namespace of the snapshot (in the current package and
    in the older variant alike) the call returns to its caller, so no shell is
    started, and the environment is unchanged.  The system calls are opens,
    writes and closes of the file named by [KUBECONFIG], after one [MkdirAll]
    of its directory when that is missing: no variable is set, and no path
    but that file is made or changed, except for the missing directories
    above it.  When the configuration serialises, a call that returns no
    error has left the mutated configuration in that file, and a write that
    nothing stops returns no error. *)
Theorem active_session_commits_in_place {L : Libraries} {D : FileSystem}
    (k : Kubeswitch) (w : World) :
  IsActive (environ w) = true →
  (∀ n, is_Some (api.Contexts (config k) !! n) →
     let k' := mkKubeswitch (api.set_CurrentContext n (config k)) (namespaces k) in
     in_place_commit k' w (Disk.SetContext k n w) ∧
     in_place_commit k' w (Disk.Legacy.SetContext k n w)) ∧
  (∀ ns snapshot,
     namespaces k = Some snapshot →
     ns ∈ corev1.Name <$> corev1.Items snapshot →
     let k' := mkKubeswitch (set_default_namespace ns (config k)) (namespaces k) in
     in_place_commit k' w (Disk.SetNamespace k ns w) ∧
     in_place_commit k' w (Disk.Legacy.SetNamespace k ns w)).
Proof.
  intros Ha. split.
  - intros n Hn k'. destruct (Disk_SetContext_valid k n w Hn) as [-> ->]. fold k'.
    unfold call. rewrite (Disk_setupSession_active k' w Ha).
    split; apply WriteToFile_in_place.
  - intros ns snapshot Hk Hns k'.
    destruct (Disk_SetNamespace_valid k snapshot ns w Hk Hns) as [-> ->]. fold k'.
    unfold call at 1. rewrite (Disk_setupSession_active k' w Ha).
    split; apply WriteToFile_in_place.
Qed.

Lemma active_session_commits_in_place_witness :
  IsActive (environ session_world) = true ∧
  in_place_commit (L := utc_libraries) (D := steady_disk)
    (mkKubeswitch (set_default_namespace "prod" sample_config)
                  (namespaces sample_kubeswitch))
    session_world
    (Disk.SetNamespace (L := utc_libraries) (D := steady_disk)
       sample_kubeswitch "prod" session_world).
Proof.
  split; [reflexivity|].
  destruct (active_session_commits_in_place (L := utc_libraries) (D := steady_disk)
              sample_kubeswitch session_world eq_refl) as [_ Hns].
  destruct (Hns "prod" _ eq_refl (list_elem_of_here _ _)) as [Hc _].
  exact Hc.
Defined.

(** The scenario of the specification: inside the session of
    [/tmp/sess/config_123], set-namespace [prod] rewrites that file and
    nothing else. *)
Example set_namespace_in_session :
  let c := Disk.SetNamespace (L := utc_libraries) (D := steady_disk)
             sample_kubeswitch "prod" session_world in
  result c = Returned None ∧
  content (after c) "/tmp/sess/config_123"
  = Some "current-context: a, namespace: prod" ∧
  dom (files (after c)) = dom (files session_world) ∧
  environ (after c) = environ session_world ∧
  trace (after c)
  = [EvOpen "/tmp/sess/config_123";
     EvWrite "/tmp/sess/config_123" "current-context: a, namespace: prod";
     EvClose "/tmp/sess/config_123"].
Proof. cbv zeta. split; [|split; [|split; [|split]]]; vm_compute; reflexivity. Qed.

(** Inside a session whose file and directories are gone, the commit first
    makes the three directories above the file. *)
Example set_namespace_in_lost_session :
  let c := Disk.SetNamespace (L := utc_libraries) (D := steady_disk)
             sample_kubeswitch "prod" lost_session_world in
  result c = Returned None ∧
  content (after c) "/data/kube/cfg/config_9"
  = Some "current-context: a, namespace: prod" ∧
  (map_to_list (files (after c))).*1
  ≡ₚ ["/data"; "/data/kube"; "/data/kube/cfg"; "/data/kube/cfg/config_9"] ∧
  environ (after c) = environ lost_session_world ∧
  trace (after c)
  = [EvMkdirAll "/data/kube/cfg";
     EvOpen "/data/kube/cfg/config_9";
     EvWrite "/data/kube/cfg/config_9" "current-context: a, namespace: prod";
     EvClose "/data/kube/cfg/config_9"].
Proof.
  cbv zeta. split; [by vm_compute|]. split; [by vm_compute|].
  split; [|split; vm_compute; reflexivity].
  replace ((map_to_list _).*1)
    with ["/data/kube/cfg/config_9"; "/data/kube/cfg"; "/data/kube"; "/data"]
    by (vm_compute; reflexivity).
  apply NoDup_Permutation.
  - repeat (constructor; [rewrite ?elem_of_cons, elem_of_nil; intuition discriminate|]).
    constructor.
  - repeat (constructor; [rewrite ?elem_of_cons, elem_of_nil; intuition discriminate|]).
    constructor.
  - intros x. rewrite !elem_of_cons, !elem_of_nil. tauto.
Qed.

(** C5, as the code has it: [writeConfig], in the current package and in the
    oldest variant, is not atomic.  It writes the destination path itself,
    which [ioutil.WriteFile] opens with truncation and then fills.  So at
    every moment of the write a reader of the destination finds what it held
    before or a leading part of the new content; a write that returns no
    error has passed through the empty file and leaves all of the new content
    in the destination. *)
Theorem writeConfig_truncates_destination {L : Libraries} {D : FileSystem}
    (k : Kubeswitch) (kj : LegacyJSON.KubeSwitch) (path bytes : string)
    (w : World) :
  (clientcmd_Write (config k) = inl bytes →
   let r := Disk.WriteToFile_run (config k) path w in
   Disk.writeConfig k path w = (Returned (Disk.failure r), Disk.final r) ∧
   direct_write path bytes w r) ∧
  (json_Marshal (LegacyJSON.config kj) = inl bytes →
   let r := Disk.WriteFile_run path bytes w in
   LegacyJSON.writeConfig kj path w = (Returned (Disk.failure r), Disk.final r) ∧
   direct_write path bytes w r).
Proof.
  split; intros Hb r; subst r.
  - split; [by rewrite Disk_writeConfig_eq|]. split.
    + intros w' Hin. by eapply WriteToFile_stage.
    + intros Hn. destruct (WriteToFile_outcome (config k) path bytes w Hb) as (Hok & _).
      destruct (Hok Hn) as [Hf Hw1]. split; [exact Hw1|].
      unfold content. by rewrite Hf.
  - split; [unfold LegacyJSON.writeConfig; rewrite Hb; by rewrite rewrap|]. split.
    + intros w' Hin. by apply WriteFile_stage in Hin as (_ & _ & _ & Hc).
    + intros Hn. destruct (WriteFile_final path bytes w) as (Hok & _).
      destruct (Hok Hn) as (Hf & _ & Hw1). split; [exact Hw1|].
      unfold content. by rewrite Hf.
Qed.

(** The session file of [session_world] is rewritten on a system on which
    the bytes arrive eight at a time: what a reader finds, stage by stage. *)
Example writeConfig_stage_by_stage :
  let r := Disk.WriteToFile_run (L := utc_libraries) (D := slow_disk)
             sample_config "/tmp/sess/config_123" session_world in
  (λ w', content w' "/tmp/sess/config_123") <$> Disk.stages r
  = [Some ""; Some "current-"; Some "current-context:";
     Some "current-context: a, name"; Some "current-context: a, namespace: ";
     Some "current-context: a, namespace: "] ∧
  Disk.failure r = None.
Proof. cbv zeta. split; vm_compute; reflexivity. Qed.

(** The write is not atomic: while the session file of [session_world] is
    rewritten with the context [b], a reader can find in it the first eight
    bytes of the new content, which is neither its old content nor the new
    one. *)
Lemma writeConfig_shows_partial_file :
  ¬ (∀ (L : Libraries) (D : FileSystem) (k : Kubeswitch) (path bytes : string)
       (w : World),
       clientcmd_Write (config k) = inl bytes →
       never_partial path bytes w
         (Disk.stages (Disk.WriteToFile_run (config k) path w))).
Proof.
  intros Hatomic.
  pose proof (Hatomic utc_libraries slow_disk
                (mkKubeswitch (api.set_CurrentContext "b" sample_config) None)
                "/tmp/sess/config_123"
                "current-context: b, namespace: " session_world eq_refl) as Hn.
  destruct (Hn (Disk.sys_written "/tmp/sess/config_123" "current-"
                  "current-context: b, namespace: "
                  (sys_open_trunc "/tmp/sess/config_123" session_world))) as [E|E].
  - vm_compute. apply list_elem_of_further, list_elem_of_here.
  - vm_compute in E. discriminate E.
  - vm_compute in E. discriminate E.
Qed.

(** * Further properties of the code *)

(** ** Failure and success of the commit *)

Section CommitOutcomes.
Context `{Libraries}.

Lemma setupSession_serialise_error k e w :
  clientcmd_Write (config k) = inr e →
  setupSession k w = (Returned (Some e), w).
Proof.
  intros He. unfold setupSession, bind at 1, syscall_Environ.
  destruct (IsActive (environ w)).
  - unfold bind at 1, Getenv. rewrite rewrap, writeConfig_eq.
    unfold clientcmd_WriteToFile. by rewrite He.
  - unfold bind at 1, time_Now. unfold bind at 1. rewrite sessionDir_eq.
    unfold bind at 1. rewrite writeConfig_eq. unfold clientcmd_WriteToFile.
    by rewrite He.
Qed.

Lemma setupSession_open_error k bytes w :
  clientcmd_Write (config k) = inl bytes →
  writable w (commit_path w) = false →
  setupSession k w
  = (Returned (Some (PathError "open" (commit_path w))),
     log (EvOpen (commit_path w)) w).
Proof.
  intros Hb Hw. unfold commit_path in *.
  unfold setupSession, bind at 1, syscall_Environ.
  destruct (IsActive (environ w)).
  - unfold bind at 1, Getenv. rewrite rewrap, writeConfig_eq.
    unfold clientcmd_WriteToFile, ioutil_WriteFile. by rewrite Hb, Hw.
  - unfold bind at 1, time_Now. unfold bind at 1. rewrite sessionDir_eq.
    rewrite kubePath_eq. unfold bind at 1. rewrite writeConfig_eq.
    unfold clientcmd_WriteToFile, ioutil_WriteFile. by rewrite Hb, Hw.
Qed.
End CommitOutcomes.

(** The world a successful start of a session leaves, step by step. *)
Lemma setupSession_started_eq `{Libraries} k bytes w :
  IsActive (environ w) = false →
  clientcmd_Write (config k) = inl bytes →
  writable w (session_path w) = true →
  setupSession k w =
    let w1 := sys_close (session_path w)
                (sys_write (session_path w) bytes (sys_open_trunc (session_path w) w)) in
    let w2 := log (EvSetenv EnvVarActive "TRUE")
                (with_environ (<[EnvVarActive := "TRUE"]> (environ w1)) w1) in
    let w3 := log (EvSetenv EnvVarConfig (session_path w))
                (with_environ (<[EnvVarConfig := session_path w]> (environ w2)) w2) in
    let sh := os_Getenv (environ w3) "SHELL" in
    let w4 := log (EvExec sh [sh] (environ w3)) w3 in
    (if executable w3 sh then Replaced else Returned None, w4).
Proof.
  intros Ha Hb Hw.
  unfold setupSession, bind at 1, syscall_Environ. rewrite Ha.
  unfold bind at 1, time_Now. unfold bind at 1. rewrite sessionDir_eq.
  rewrite kubePath_eq. unfold bind at 1.
  rewrite writeConfig_eq. unfold clientcmd_WriteToFile. rewrite Hb.
  unfold ioutil_WriteFile. rewrite Hw.
  unfold bind, Setenv, Getenv, syscall_Environ, syscall_Exec, ret.
  by destruct (executable _ _).
Qed.


(** Outside a session, on a system whose disk is full after twelve bytes:
    the new session file is left with those bytes and no shell is started. *)
Example set_context_disk_full :
  let c := Disk.SetContext (L := utc_libraries) (D := full_disk)
             sample_kubeswitch "b" plain_world in
  let path := "/home/u/.kube/tmp/config_1600000000000000000" in
  result c = Returned (Some (PathError "write" path)) ∧
  content (after c) path = Some "current-cont" ∧
  environ (after c) = environ plain_world ∧
  trace (after c)
  = [EvOpen path; EvWrite path "current-context: b, namespace: "; EvClose path].
Proof. cbv zeta. split; [|split; [|split]]; vm_compute; reflexivity. Qed.

(** Inside a session whose directories are gone, on a system that lets no
    directory be made: the failed [MkdirAll] is the only call, and the file
    is not opened. *)
Example set_context_no_directory :
  let c := Disk.SetContext (L := utc_libraries) (D := sealed_disk)
             sample_kubeswitch "b" lost_session_world in
  result c = Returned (Some (PathError "mkdir" "/data")) ∧
  files (after c) = ∅ ∧
  environ (after c) = environ lost_session_world ∧
  trace (after c) = [EvMkdirAll "/data/kube/cfg"].
Proof. cbv zeta. split; [|split; [|split]]; vm_compute; reflexivity. Qed.

(** X2: a session that was started is found again.  After a mutation made
    outside a session has written the session file, any process that runs in
    the environment it left ([KUBESWITCH_ACTIVE] and [KUBECONFIG] as set) is
    inside the session and commits its own mutations in place to that very
    file.  This holds for the shell that was started and, when the [exec]
    failed (the error is dropped and [SetContext] returns nil), for the
    original process. *)
Theorem started_session_is_found_again `{Libraries} (k : Kubeswitch)
    (n bytes : string) (w : World) :
  IsActive (environ w) = false →
  is_Some (api.Contexts (config k) !! n) →
  clientcmd_Write (api.set_CurrentContext n (config k)) = inl bytes →
  writable w (session_path w) = true →
  let c := SetContext k n w in
  content (after c) (session_path w) = Some bytes ∧
  (executable w (os_Getenv (environ w) "SHELL") = false →
   result c = Returned None) ∧
  ∀ (k2 : Kubeswitch) (w2 : World),
    environ w2 = environ (after c) →
    IsActive (environ w2) = true ∧
    os_Getenv (environ w2) EnvVarConfig = session_path w ∧
    (∀ n2, is_Some (api.Contexts (config k2) !! n2) →
       committed_in_place
         (mkKubeswitch (api.set_CurrentContext n2 (config k2)) (namespaces k2))
         w2 (SetContext k2 n2 w2)) ∧
    (∀ ns2 snapshot,
       namespaces k2 = Some snapshot →
       ns2 ∈ corev1.Name <$> corev1.Items snapshot →
       committed_in_place
         (mkKubeswitch (set_default_namespace ns2 (config k2)) (namespaces k2))
         w2 (SetNamespace k2 ns2 w2)).
Proof.
  intros Ha Hn Hb Hw c. subst c. rewrite (SetContext_valid k n w Hn). cbv zeta.
  destruct (setupSession_started
              (mkKubeswitch (api.set_CurrentContext n (config k)) (namespaces k))
              bytes w Ha Hb Hw) as (_ & Hf & He & _ & Hr).
  unfold call in *. cbn [receiver result after] in *.
  split; [|split].
  - unfold content. rewrite Hf. by rewrite lookup_insert_eq.
  - intros Hx. rewrite Hr. by rewrite Hx.
  - intros k2 w2 Hw2. rewrite He in Hw2.
    assert (IsActive (environ w2) = true) as Ha2.
    { rewrite Hw2. unfold session_environ, IsActive, os_Getenv.
      rewrite lookup_insert_ne by done. by rewrite lookup_insert_eq. }
    split; [exact Ha2|]. split.
    { rewrite Hw2. unfold session_environ, os_Getenv. by rewrite lookup_insert_eq. }
    split.
    + intros n2 Hn2. rewrite (SetContext_valid k2 n2 w2 Hn2).
      by apply setupSession_committed.
    + intros ns2 snapshot Hk2 Hns2.
      rewrite (SetNamespace_valid k2 snapshot ns2 w2 Hk2 Hns2).
      by apply setupSession_committed.
Qed.

Lemma started_session_is_found_again_witness :
  IsActive (environ fresh_world) = false ∧
  content (after (SetContext (H := utc_libraries) sample_kubeswitch "b" fresh_world))
    (session_path fresh_world)
  = Some "current-context: b, namespace: ".
Proof.
  split; [reflexivity|].
  exact (proj1 (started_session_is_found_again (H := utc_libraries)
                  sample_kubeswitch "b" "current-context: b, namespace: "
                  fresh_world eq_refl (mk_is_Some _ _ eq_refl) eq_refl eq_refl)).
Defined.

(** X3: session files of one user that are created at different clock
    readings (within the range of [int64] nanoseconds) have different paths. *)
Theorem session_paths_differ_by_time (w1 w2 : World) :
  home w1 = home w2 →
  int64_range (clock w1) → int64_range (clock w2) →
  session_path w1 = session_path w2 →
  clock w1 = clock w2.
Proof.
  intros Hh H1 H2. unfold session_path, time_UnixNano, fmt_d. rewrite Hh.
  rewrite (wrap64_in_range _ H1), (wrap64_in_range _ H2).
  intros E. apply (inj (String.app _)) in E. apply (inj (String.app _)) in E.
  by apply (inj pretty) in E.
Qed.

Lemma session_paths_differ_by_time_witness :
  home fresh_world = home session_world ∧
  int64_range (clock fresh_world) ∧ int64_range (clock session_world) ∧
  session_path fresh_world = session_path session_world ∧
  clock fresh_world = clock session_world.
Proof.
  assert (int64_range 1600000000000000000) as Hr by (unfold int64_range; lia).
  split; [reflexivity|]. split; [exact Hr|]. split; [exact Hr|].
  split; [reflexivity|].
  exact (session_paths_differ_by_time fresh_world session_world eq_refl Hr Hr eq_refl).
Defined.

(** X4: the older [SetNamespace] never starts a session.  In or out of a
    session it commits in place to whatever path [KUBECONFIG] holds: it sets
    no variable, runs no shell and makes or changes no path but that file and
    the missing directories above it. *)
Theorem Legacy_SetNamespace_always_in_place {L : Libraries} {D : FileSystem}
    (k : Kubeswitch) (snapshot : corev1.NamespaceList) (ns : string) (w : World) :
  namespaces k = Some snapshot →
  ns ∈ corev1.Name <$> corev1.Items snapshot →
  in_place_commit
    (mkKubeswitch (set_default_namespace ns (config k)) (namespaces k))
    w (Disk.Legacy.SetNamespace k ns w).
Proof.
  intros Hk Hns.
  destruct (Disk_SetNamespace_valid k snapshot ns w Hk Hns) as [_ ->].
  apply WriteToFile_in_place.
Qed.

Lemma Legacy_SetNamespace_always_in_place_witness :
  namespaces sample_kubeswitch
  = Some (corev1.mkNamespaceList
            [corev1.mkNamespace "prod"; corev1.mkNamespace "dev"]) ∧
  in_place_commit (L := utc_libraries) (D := steady_disk)
    (mkKubeswitch (set_default_namespace "dev" sample_config)
                  (namespaces sample_kubeswitch))
    plain_world
    (Disk.Legacy.SetNamespace (L := utc_libraries) (D := steady_disk)
       sample_kubeswitch "dev" plain_world).
Proof.
  split; [reflexivity|].
  apply (Legacy_SetNamespace_always_in_place (L := utc_libraries) (D := steady_disk)
           sample_kubeswitch _ "dev" plain_world eq_refl).
  apply list_elem_of_further, list_elem_of_here.
Defined.

(** Outside a session the older [SetNamespace] rewrites the file [KUBECONFIG]
    names and starts nothing; with [KUBECONFIG] unset it tries to open the
    empty path, which fails. *)
Example Legacy_SetNamespace_outside_session :
  let c := Disk.Legacy.SetNamespace (L := utc_libraries) (D := steady_disk)
             sample_kubeswitch "dev" plain_world in
  let c0 := Disk.Legacy.SetNamespace (L := utc_libraries) (D := steady_disk)
              sample_kubeswitch "dev" fresh_world in
  result c = Returned None ∧
  content (after c) "/home/u/.kube/config"
  = Some "current-context: a, namespace: dev" ∧
  environ (after c) = environ plain_world ∧
  trace (after c)
  = [EvOpen "/home/u/.kube/config";
     EvWrite "/home/u/.kube/config" "current-context: a, namespace: dev";
     EvClose "/home/u/.kube/config"] ∧
  result c0 = Returned (Some (PathError "open" "")) ∧
  files (after c0) = ∅ ∧
  trace (after c0) = [EvOpen ""].
Proof.
  cbv zeta. split; [|split; [|split; [|split; [|split; [|split]]]]];
    vm_compute; reflexivity.
Qed.

(** ** Selections at the edge *)

Lemma set_default_namespace_dangling ns cfg :
  api.Contexts cfg !! api.CurrentContext cfg = None →
  set_default_namespace ns cfg = cfg.
Proof.
  intros Hc. pose proof (set_default_namespace_alter ns cfg) as E.
  rewrite (alter_id' _ _ _ Hc) in E.
  unfold set_default_namespace in *. simpl in E. rewrite E. by destruct cfg.
Qed.

(** X5: when [currentContext] names no entry of the configuration (it is
    empty or stale), [SetNamespace] with a namespace of the snapshot finds no
    context to change: the configuration stays exactly as it was, and the
    call still commits it (it writes the session file or starts a session)
    and reports what the commit reports, with no error of its own. *)
Theorem SetNamespace_without_current_entry `{Libraries} (k : Kubeswitch)
    (snapshot : corev1.NamespaceList) (ns : string) (w : World) :
  namespaces k = Some snapshot →
  ns ∈ corev1.Name <$> corev1.Items snapshot →
  api.Contexts (config k) !! api.CurrentContext (config k) = None →
  receiver (SetNamespace k ns w) = k ∧
  (result (SetNamespace k ns w), after (SetNamespace k ns w)) = setupSession k w.
Proof.
  intros Hk Hns Hc. rewrite (SetNamespace_valid k snapshot ns w Hk Hns).
  cbv zeta. rewrite (set_default_namespace_dangling ns (config k) Hc).
  assert (mkKubeswitch (config k) (namespaces k) = k) as -> by by destruct k.
  unfold call. cbn [receiver result after]. split; [reflexivity|].
  by destruct (setupSession k w).
Qed.

Lemma SetNamespace_without_current_entry_witness :
  let k := mkKubeswitch (api.set_CurrentContext "" sample_config)
             (namespaces sample_kubeswitch) in
  namespaces k = namespaces sample_kubeswitch ∧
  receiver (SetNamespace (H := utc_libraries) k "prod" session_world) = k.
Proof.
  split; [reflexivity|].
  exact (proj1 (SetNamespace_without_current_entry (H := utc_libraries)
                  (mkKubeswitch (api.set_CurrentContext "" sample_config)
                     (namespaces sample_kubeswitch))
                  _ "prod" session_world eq_refl (list_elem_of_here _ _) eq_refl)).
Defined.

(** X6: the listing and the validation agree.  [ListContexts] has no
    duplicates and as many names as the configuration has contexts;
    [IsValidContext] accepts exactly the listed names, and [IsValidNamespace]
    exactly the names that [ListNamespaces] lists. *)
Theorem listed_names_are_the_valid_ones (k : Kubeswitch) :
  NoDup (ListContexts k) ∧
  length (ListContexts k) = size (api.Contexts (config k)) ∧
  (∀ n, IsValidContext k n = true ↔ n ∈ ListContexts k) ∧
  (∀ snapshot, namespaces k = Some snapshot →
     length (default [] (ListNamespaces k)) = length (corev1.Items snapshot) ∧
     ∀ ns, IsValidNamespace k ns = Some true ↔
           ns ∈ default [] (ListNamespaces k)).
Proof.
  split; [|split; [|split]].
  - unfold ListContexts. rewrite sort_Strings_Permutation.
    apply NoDup_fst_map_to_list.
  - unfold ListContexts. rewrite sort_Strings_Permutation.
    by rewrite length_fmap, length_map_to_list.
  - intros n. unfold IsValidContext. apply contains_true.
  - intros snapshot Hk. unfold ListNamespaces, IsValidNamespace. rewrite Hk. simpl.
    split.
    + by rewrite sort_Strings_Permutation, length_fmap.
    + intros ns. rewrite elem_of_sort_Strings, <- contains_Name_true.
      split; [by intros [= ->] | by intros ->].
Qed.

(** ** More on the purge *)

(** X7: the purge is best effort.  When the session directory can be listed,
    each entry that was last modified before the cutoff is deleted exactly
    when its own removal succeeds: a removal that fails keeps that entry and
    does not stop the removal of the others. *)
Theorem Purge_is_best_effort `{Libraries} (days : Z) (w : World) :
  listable w (home w ++ "/.kube/tmp") = true →
  ∀ p f, files w !! p = Some f →
         session_entry w p →
         modTime f < delTime (clock w) days →
         (files (Purge days w).2 !! p = None ↔ removable w p = true) ∧
         (files (Purge days w).2 !! p = Some f ↔ removable w p = false).
Proof.
  intros Hl p f Hp He Hlt.
  destruct (Purge_effect days w) as (_ & _ & Hf). rewrite Hf, Hl.
  rewrite purged_lookup, Hp. destruct (removable w p) eqn:Hr.
  - rewrite decide_True by done. by split.
  - rewrite decide_False by (intros (_ & _ & ?); discriminate). by split.
Qed.

Lemma Purge_is_best_effort_witness :
  listable stubborn_world (home stubborn_world ++ "/.kube/tmp") = true ∧
  files (Purge (H := utc_libraries) 2 stubborn_world).2
    !! "/home/u/.kube/tmp/config_3" = None ∧
  files (Purge (H := utc_libraries) 2 stubborn_world).2
    !! "/home/u/.kube/tmp/config_10"
  = Some (mkFile "ten" (1600000000000000000 - 10 * day_ns)).
Proof.
  split; [reflexivity|]. split.
  - apply (Purge_is_best_effort (H := utc_libraries) 2 stubborn_world eq_refl
             "/home/u/.kube/tmp/config_3"
             (mkFile "three" (1600000000000000000 - 3 * day_ns)) eq_refl).
    + by eexists.
    + reflexivity.
    + reflexivity.
  - apply (Purge_is_best_effort (H := utc_libraries) 2 stubborn_world eq_refl
             "/home/u/.kube/tmp/config_10"
             (mkFile "ten" (1600000000000000000 - 10 * day_ns)) eq_refl).
    + by eexists.
    + reflexivity.
    + reflexivity.
Defined.

Section PurgeCalls.
Context `{Libraries}.

Lemma purge_body_trace del i w :
  let p := home w ++ "/.kube/tmp" ++ "/" ++ Name i in
  ∃ evs, trace (purge_body del i w).2 = (trace w ++ evs)%list ∧
         Forall (λ e, time_Before (ModTime i) del = true ∧
                      (e = EvRemove p ∨ e = EvPrintln (PathError "remove" p))) evs.
Proof.
  cbv zeta. rewrite purge_body_eq. cbv zeta.
  destruct (time_Before (ModTime i) del) eqn:Hb;
    [|exists []; split; [by rewrite app_nil_r | constructor]].
  destruct (files w !! _) as [f|]; [destruct (removable w _)|]; simpl.
  - eexists [_]. split; [reflexivity|]. constructor; [|constructor]. auto.
  - eexists [_; _]. rewrite <- app_assoc. split; [reflexivity|].
    constructor; [auto|]. constructor; [auto|constructor].
  - eexists [_; _]. rewrite <- app_assoc. split; [reflexivity|].
    constructor; [auto|]. constructor; [auto|constructor].
Qed.

Lemma purge_loop_trace del l w :
  ∃ evs, trace (for_range l (purge_body del) w).2 = (trace w ++ evs)%list ∧
         Forall (λ e, ∃ i, i ∈ l ∧ time_Before (ModTime i) del = true ∧
                   (e = EvRemove (home w ++ "/.kube/tmp" ++ "/" ++ Name i) ∨
                    e = EvPrintln (PathError "remove"
                                     (home w ++ "/.kube/tmp" ++ "/" ++ Name i))))
                evs.
Proof.
  revert w. induction l as [|i l IH]; intros w; simpl.
  - exists []. split; [by rewrite app_nil_r | constructor].
  - unfold bind.
    destruct (purge_body_step del i w) as (Hr & Hh & _).
    destruct (purge_body_trace del i w) as (evs1 & Ht1 & Hall1).
    destruct (purge_body del i w) as [r1 w1]. simpl in Hr, Hh, Ht1. subst r1.
    destruct (IH w1) as (evs2 & Ht2 & Hall2).
    destruct Hh as (_ & _ & Hhome & _).
    exists (evs1 ++ evs2)%list. split.
    + by rewrite Ht2, Ht1, app_assoc.
    + apply Forall_app. split.
      * eapply Forall_impl; [exact Hall1|]. intros e (Hb & He).
        exists i. split; [apply list_elem_of_here | by split].
      * eapply Forall_impl; [exact Hall2|]. intros e (j & Hj & Hb & He).
        exists j. rewrite <- Hhome. split; [by apply list_elem_of_further | by split].
Qed.
End PurgeCalls.

(** X8: what [Purge] asks of the system.  Its calls are the listing of the
    session directory, then removals of entries of that directory that were
    last modified before the cutoff, each failed removal followed by the print
    of its error.  It never opens or writes a file, sets a variable or runs a
    program, and it leaves the environment as it was. *)
Theorem Purge_only_lists_and_removes `{Libraries} (days : Z) (w : World) :
  environ (Purge days w).2 = environ w ∧
  ∃ evs, trace (Purge days w).2 = (trace w ++ evs)%list ∧
         Forall (purge_call w (delTime (clock w) days)) evs.
Proof.
  destruct (Purge_effect days w) as (_ & (Henv & _) & _).
  split; [exact Henv|]. rewrite Purge_unfold. cbv zeta.
  set (dir := home w ++ "/.kube/tmp"). set (del := delTime (clock w) days).
  destruct (purge_loop_trace del
              (if listable w dir
               then merge_sort by_Name (dir_entries dir (files w)) else [])
              (log (EvReadDir dir) w)) as (evs & Ht & Hall).
  exists (EvReadDir dir :: evs). split.
  - rewrite Ht. simpl. by rewrite <- app_assoc.
  - constructor; [by left|].
    eapply Forall_impl; [exact Hall|]. intros e (i & Hi & Hb & He).
    change (home (log (EvReadDir dir) w)) with (home w) in He.
    right. destruct (listable w dir); [|by apply elem_of_nil in Hi].
    rewrite (merge_sort_Permutation by_Name) in Hi.
    apply elem_of_dir_entries in Hi as (f & Hf & Hm & Hn).
    assert (home w ++ "/.kube/tmp" ++ "/" ++ Name i = dir ++ "/" ++ Name i) as Hp.
    { unfold dir. by rewrite string_app_assoc. }
    rewrite Hp in He. exists (dir ++ "/" ++ Name i), f.
    split; [exact Hf|]. split; [by eexists|]. split; [|exact He].
    unfold time_Before in Hb. apply Z.ltb_lt in Hb. lia.
Qed.

Example purge_calls_with_failed_removal :
  trace (Purge (H := utc_libraries) 2 stubborn_world).2
  = [EvReadDir "/home/u/.kube/tmp";
     EvRemove "/home/u/.kube/tmp/config_10";
     EvPrintln (PathError "remove" "/home/u/.kube/tmp/config_10");
     EvRemove "/home/u/.kube/tmp/config_3"].
Proof. reflexivity. Qed.

Lemma strip_prefix_app h a b :
  strip_prefix (h ++ a) (h ++ b) = strip_prefix a b.
Proof.
  induction h as [|c h IH]; [reflexivity|].
  change (String c h ++ a) with (String c (h ++ a)).
  change (String c h ++ b) with (String c (h ++ b)).
  simpl. by rewrite decide_True.
Qed.

Lemma has_slash_app a b : has_slash (a ++ "/" ++ b) = true.
Proof.
  induction a as [|c a IH]; [reflexivity|].
  change (String c a ++ "/" ++ b) with (String c (a ++ "/" ++ b)).
  simpl. by destruct (decide (c = "/"%char)).
Qed.

Lemma entry_name_default_config h :
  entry_name (h ++ "/.kube/tmp") (h ++ "/.kube/config") = None.
Proof.
  unfold entry_name. rewrite string_app_assoc, strip_prefix_app. reflexivity.
Qed.

Lemma entry_name_directory h : entry_name (h ++ "/.kube/tmp") (h ++ "/.kube/tmp") = None.
Proof.
  unfold entry_name. rewrite string_app_assoc, strip_prefix_app. reflexivity.
Qed.

Lemma entry_name_nested dir name rest :
  entry_name dir (dir ++ "/" ++ name ++ "/" ++ rest) = None.
Proof.
  unfold entry_name.
  assert (strip_prefix (dir ++ "/") (dir ++ "/" ++ name ++ "/" ++ rest)
          = Some (name ++ "/" ++ rest)) as ->.
  { apply strip_prefix_Some. by rewrite string_app_assoc. }
  case_decide; [reflexivity|]. by rewrite has_slash_app.
Qed.

(** X9: what the purge can never delete, whatever the retention and the
    modification times: the default kube config [<home>/.kube/config], the
    session directory itself, and anything below a subdirectory of the
    session directory. *)
Theorem Purge_spares_what_is_not_an_entry `{Libraries} (days : Z) (w : World) :
  let kept p := files (Purge days w).2 !! p = files w !! p in
  kept (home w ++ "/.kube/config") ∧
  kept (home w ++ "/.kube/tmp") ∧
  ∀ name rest, kept ((home w ++ "/.kube/tmp") ++ "/" ++ name ++ "/" ++ rest).
Proof.
  assert (∀ p, entry_name (home w ++ "/.kube/tmp") p = None →
               files (Purge days w).2 !! p = files w !! p) as Hkept.
  { intros p Hp. destruct (Purge_effect days w) as (_ & _ & ->).
    destruct (listable w _); [|reflexivity].
    rewrite purged_lookup. destruct (files w !! p); [|reflexivity].
    rewrite decide_False; [reflexivity|].
    rewrite Hp. by intros ([? [=]] & _). }
  cbv zeta. split; [|split].
  - apply Hkept, entry_name_default_config.
  - apply Hkept, entry_name_directory.
  - intros name rest. apply Hkept, entry_name_nested.
Qed.

Example purge_everything_spares_default_config :
  (map_to_list (files (Purge (H := utc_libraries) (-1) purge_world).2)).*1
  = ["/home/u/.kube/config"].
Proof. reflexivity. Qed.

(** ** From the start of a session to its purge *)

Lemma pretty_N_char_no_slash x : pretty_N_char x ≠ "/"%char.
Proof. unfold pretty_N_char. repeat case_match; discriminate. Qed.

Lemma pretty_N_go_no_slash x s :
  has_slash s = false → has_slash (pretty_N_go x s) = false.
Proof.
  revert s. induction (N.lt_wf_0 x) as [x _ IH]; intros s Hs.
  destruct (decide (x = 0)%N) as [->|Hx]; [by rewrite pretty_N_go_0|].
  rewrite pretty_N_go_step by lia. apply IH; [apply N.div_lt; lia|].
  simpl. by rewrite decide_False by apply pretty_N_char_no_slash.
Qed.

Lemma pretty_Z_no_slash (z : Z) : has_slash (pretty z) = false.
Proof.
  assert (∀ p : positive, has_slash (pretty p) = false) as Hpos.
  { intros p. unfold pretty, pretty_positive, pretty, pretty_N.
    case_decide; [reflexivity|]. by apply pretty_N_go_no_slash. }
  destruct z as [|p|p]; [reflexivity | apply Hpos |].
  unfold pretty, pretty_Z.
  change ("-" +:+ pretty p) with (String "-" (pretty p)). simpl. apply Hpos.
Qed.

Lemma session_path_entry w :
  entry_name (home w ++ "/.kube/tmp") (session_path w)
  = Some ("config_" ++ fmt_d (time_UnixNano (clock w))).
Proof.
  apply entry_name_Some. split; [|split].
  - unfold session_path. by rewrite string_app_assoc.
  - discriminate.
  - change (has_slash (fmt_d (time_UnixNano (clock w))) = false).
    apply pretty_Z_no_slash.
Qed.

(** The commit changes neither the home directory nor what the system
    allows. *)
Lemma WriteToFile_same_machine `{Libraries} cfg path w :
  home (clientcmd_WriteToFile cfg path w).2 = home w ∧
  listable (clientcmd_WriteToFile cfg path w).2 = listable w ∧
  removable (clientcmd_WriteToFile cfg path w).2 = removable w.
Proof.
  unfold clientcmd_WriteToFile, ioutil_WriteFile, ret.
  destruct (clientcmd_Write cfg); [destruct (writable w path)|]; by repeat split.
Qed.

Lemma setupSession_same_machine `{Libraries} k w :
  home (setupSession k w).2 = home w ∧
  listable (setupSession k w).2 = listable w ∧
  removable (setupSession k w).2 = removable w.
Proof.
  destruct (IsActive (environ w)) eqn:Ha.
  { rewrite (setupSession_active k w Ha). apply WriteToFile_same_machine. }
  destruct (clientcmd_Write (config k)) as [bytes|e] eqn:Hb.
  - destruct (writable w (session_path w)) eqn:Hw.
    + rewrite (setupSession_started_eq k bytes w Ha Hb Hw). by repeat split.
    + assert (writable w (commit_path w) = false) as Hw'
        by (unfold commit_path; by rewrite Ha).
      rewrite (setupSession_open_error k bytes w Hb Hw'). by repeat split.
  - rewrite (setupSession_serialise_error k e w Hb). by repeat split.
Qed.

(** X10: the life of a session file.  The file that a mutation outside a
    session creates is an entry of the session directory, stamped with the
    clock reading of its creation.  A later purge at clock reading [t], when
    it can list the directory and remove the file, deletes it exactly when
    that stamp lies strictly before the cutoff of [t]; otherwise the file is
    kept with its content. *)
Theorem session_file_lives_until_cutoff `{Libraries} (k : Kubeswitch)
    (n bytes : string) (w : World) (t days : Z) :
  IsActive (environ w) = false →
  is_Some (api.Contexts (config k) !! n) →
  clientcmd_Write (api.set_CurrentContext n (config k)) = inl bytes →
  writable w (session_path w) = true →
  listable w (home w ++ "/.kube/tmp") = true →
  removable w (session_path w) = true →
  let w1 := with_clock t (after (SetContext k n w)) in
  session_entry w1 (session_path w) ∧
  files w1 !! session_path w = Some (mkFile bytes (clock w)) ∧
  (clock w < delTime t days →
   files (Purge days w1).2 !! session_path w = None) ∧
  (¬ clock w < delTime t days →
   files (Purge days w1).2 !! session_path w = Some (mkFile bytes (clock w))).
Proof.
  intros Ha Hn Hb Hw Hl Hr w1. subst w1.
  rewrite (SetContext_valid k n w Hn). cbv zeta.
  destruct (setupSession_started
              (mkKubeswitch (api.set_CurrentContext n (config k)) (namespaces k))
              bytes w Ha Hb Hw) as (_ & Hf & _).
  unfold call in *. cbn [receiver result after] in *.
  set (w' := (setupSession _ w).2) in *.
  destruct (setupSession_same_machine
              (mkKubeswitch (api.set_CurrentContext n (config k)) (namespaces k)) w)
    as (Hhome & Hlist & Hrm). fold w' in Hhome, Hlist, Hrm.
  assert (files (with_clock t w') !! session_path w = Some (mkFile bytes (clock w)))
    as Hfile.
  { change (files (with_clock t w')) with (files w'). rewrite Hf.
    by rewrite lookup_insert_eq. }
  split; [|split; [exact Hfile|]].
  { unfold session_entry. change (home (with_clock t w')) with (home w').
    rewrite Hhome, session_path_entry. by eexists. }
  destruct (Purge_effect days (with_clock t w')) as (_ & _ & Hp).
  change (home (with_clock t w')) with (home w') in Hp.
  change (listable (with_clock t w')) with (listable w') in Hp.
  change (removable (with_clock t w')) with (removable w') in Hp.
  change (clock (with_clock t w')) with t in Hp.
  rewrite Hhome, Hlist, Hrm, Hl in Hp. rewrite Hp, purged_lookup, Hfile.
  split; intros Hlt.
  - rewrite decide_True; [reflexivity|]. rewrite session_path_entry.
    split; [by eexists|]. by split.
  - rewrite decide_False; [reflexivity|]. by intros (_ & ? & _).
Qed.

Lemma session_file_lives_until_cutoff_witness :
  IsActive (environ fresh_world) = false ∧
  files (Purge (H := utc_libraries) 2
           (with_clock (1600000000000000000 + 3 * day_ns)
              (after (SetContext (H := utc_libraries) sample_kubeswitch "b"
                        fresh_world)))).2
    !! session_path fresh_world = None.
Proof.
  split; [reflexivity|].
  apply (session_file_lives_until_cutoff (H := utc_libraries) sample_kubeswitch
           "b" "current-context: b, namespace: " fresh_world
           (1600000000000000000 + 3 * day_ns) 2
           eq_refl (mk_is_Some _ _ eq_refl) eq_refl eq_refl eq_refl eq_refl).
  reflexivity.
Defined.

(** ** The variant with the versioned configuration *)

Lemma GetContext_from_None s l ctx :
  JSONVariant.GetContext_from s l ctx = None ↔ ctx ∉ apiv1.Name <$> l.
Proof.
  revert s. induction l as [|e l IH]; intros s; simpl.
  - split; [intros _; apply not_elem_of_nil | done].
  - rewrite not_elem_of_cons. case_decide as He.
    + split; [discriminate | intros [Hne _]; by destruct Hne].
    + rewrite IH. split; [by split | by intros [_ ?]].
Qed.

Lemma GetContext_from_Some s l ctx i c :
  JSONVariant.GetContext_from s l ctx = Some (i, c) →
  (s ≤ i)%Z ∧
  ∃ e, l !! Z.to_nat (i - s) = Some e ∧ apiv1.Name e = ctx ∧ c = apiv1.Context e ∧
       ∀ j e', (j < Z.to_nat (i - s))%nat → l !! j = Some e' → apiv1.Name e' ≠ ctx.
Proof.
  revert s. induction l as [|e l IH]; intros s; simpl; [discriminate|].
  case_decide as He.
  - intros [= <- <-]. split; [lia|]. exists e.
    replace (s - s) with 0 by lia. simpl. repeat split; [done|]. intros j e' Hj. lia.
  - intros Hg. apply IH in Hg as (Hle & e0 & Hl & Hn & Hc & Hfirst).
    split; [lia|]. exists e0.
    replace (Z.to_nat (i - s)) with (S (Z.to_nat (i - (s + 1)))) by lia.
    simpl. split; [exact Hl|]. split; [exact Hn|]. split; [exact Hc|].
    intros [|j] e' Hj; simpl.
    + by intros [= <-].
    + intros Hl'. apply (Hfirst j e'); [lia | exact Hl'].
Qed.

(** X11: [GetContext] returns the first entry with the requested name: its
    index (from 0) and its context, with a nil error; no entry before that
    index has the name.  When no entry has the name it returns [-1], no
    context and an error, whose message is "context `<name>` not found" for a
    name without [%].  It finds a context exactly when [IsValidContext]
    accepts the name. *)
Theorem GetContext_finds_first_entry (verbs : string → string)
    (k : LegacyJSON.KubeSwitch) (ctx : string) :
  let l := apiv1.Contexts (LegacyJSON.config k) in
  let '(i, c, err) := JSONVariant.GetContext verbs k ctx in
  (ctx ∈ apiv1.Name <$> l →
     err = None ∧ (0 ≤ i)%Z ∧
     ∃ e, l !! Z.to_nat i = Some e ∧ apiv1.Name e = ctx ∧ c = Some (apiv1.Context e) ∧
          ∀ j e', (j < Z.to_nat i)%nat → l !! j = Some e' → apiv1.Name e' ≠ ctx) ∧
  (ctx ∉ apiv1.Name <$> l →
     i = -1 ∧ c = None ∧ is_Some err ∧
     (has_percent ctx = false →
      err = Some (errorString ("context `" ++ ctx ++ "` not found")))) ∧
  (JSONVariant.IsValidContext k ctx = true ↔ (0 ≤ i)%Z).
Proof.
  intros l. unfold JSONVariant.GetContext. fold l.
  destruct (JSONVariant.GetContext_from 0 l ctx) as [[i c]|] eqn:Hg.
  - pose proof (GetContext_from_Some 0 l ctx i c Hg) as (Hle & e & Hl & Hn & Hc & Hf).
    replace (i - 0) with i in * by lia.
    assert (ctx ∈ apiv1.Name <$> l) as Hin.
    { destruct (decide (ctx ∈ apiv1.Name <$> l)) as [|Hno]; [done|].
      apply GetContext_from_None with (s := 0) in Hno. congruence. }
    split; [|split].
    + intros _. split; [done|]. split; [done|]. exists e. by rewrite Hc.
    + intros Hno. by destruct Hno.
    + unfold JSONVariant.IsValidContext, JSONVariant.ListContexts.
      rewrite contains_true, elem_of_sort_Strings. fold l. by split.
  - apply GetContext_from_None in Hg. split; [|split].
    + intros Hin. by destruct Hg.
    + intros _. split; [done|]. split; [done|]. split; [by eexists|].
      intros Hp. unfold fmt_Errorf0.
      assert (has_percent ("context `" ++ ctx ++ "` not found") = false) as ->;
        [|reflexivity].
      change (has_percent (ctx ++ "` not found") = false).
      clear -Hp. induction ctx as [|a ctx IH]; [reflexivity|].
      change (String a ctx ++ "` not found") with (String a (ctx ++ "` not found")).
      simpl in *. destruct (decide (a = "%"%char)); [discriminate | by apply IH].
    + unfold JSONVariant.IsValidContext, JSONVariant.ListContexts.
      rewrite contains_true, elem_of_sort_Strings. fold l. split; [done | lia].
Qed.

Example GetContext_repeated_name :
  JSONVariant.GetContext verbs_kept sample_json_kubeswitch "a"
  = (1, Some (api.mkContext "west" "dev" ""), None) ∧
  JSONVariant.GetContext verbs_kept sample_json_kubeswitch "c"
  = (-1, None, Some (errorString "context `c` not found")).
Proof. split; reflexivity. Qed.




Example JSON_SetNamespace_repeated_name :
  let c := JSONVariant.SetNamespace (L := utc_libraries) (D := steady_disk) verbs_kept
             sample_json_kubeswitch "prod" session_world in
  apiv1.Contexts (LegacyJSON.config (JSONVariant.receiver c))
  = [apiv1.mkNamedContext "b" (api.mkContext "east" "ops" "");
     apiv1.mkNamedContext "a" (api.mkContext "west" "dev" "prod");
     apiv1.mkNamedContext "a" (api.mkContext "north" "qa" "")] ∧
  JSONVariant.result c = Returned None ∧
  content (JSONVariant.after c) "/tmp/sess/config_123"
  = Some "current-context: a, namespace: prod" ∧
  trace (JSONVariant.after c)
  = [EvOpen "/tmp/sess/config_123";
     EvWrite "/tmp/sess/config_123" "current-context: a, namespace: prod";
     EvClose "/tmp/sess/config_123"].
Proof. cbv zeta. split; [|split; [|split]]; vm_compute; reflexivity. Qed.

(** X13: [ListContexts] of the variant with the versioned configuration
    returns the names of the entries sorted in ascending order and keeps a
    name as often as entries carry it; [IsValidContext] accepts a name
    exactly when some entry carries it. *)
Theorem JSON_ListContexts_keeps_repeated_names (k : LegacyJSON.KubeSwitch) :
  let l := apiv1.Contexts (LegacyJSON.config k) in
  Sorted String.le (JSONVariant.ListContexts k) ∧
  JSONVariant.ListContexts k ≡ₚ apiv1.Name <$> l ∧
  length (JSONVariant.ListContexts k) = length l ∧
  (l = [] → JSONVariant.ListContexts k = []) ∧
  (∀ n, JSONVariant.IsValidContext k n = true ↔ ∃ e, e ∈ l ∧ apiv1.Name e = n).
Proof.
  intros l. unfold JSONVariant.IsValidContext, JSONVariant.ListContexts. fold l.
  split; [apply sort_Strings_Sorted|]. split; [apply sort_Strings_Permutation|].
  split; [by rewrite sort_Strings_Permutation, length_fmap|].
  split; [by intros ->|].
  intros n. rewrite contains_true, elem_of_sort_Strings, list_elem_of_fmap.
  split; intros (e & ? & ?); by exists e.
Qed.

Example JSON_ListContexts_sample :
  JSONVariant.ListContexts sample_json_kubeswitch = ["a"; "a"; "b"].
Proof. reflexivity. Qed.

(** ** The kube configs of a command *)

Lemma elem_of_removeDuplicates s x : x ∈ cmd.removeDuplicates s ↔ x ∈ s.
Proof.
  unfold cmd.removeDuplicates. by rewrite elem_of_elements, elem_of_list_to_set.
Qed.

Lemma NoDup_removeDuplicates s : NoDup (cmd.removeDuplicates s).
Proof. unfold cmd.removeDuplicates. apply NoDup_elements. Qed.

(** X14: [removeDuplicates] returns every string of its input once: the
    result has no duplicates and the same members as the input, so it is
    never longer, it is a rearrangement of an input without duplicates, it is
    empty only for the empty input, and a second pass changes nothing more
    than the order. *)
Theorem removeDuplicates_keeps_one_of_each (s : list string) :
  NoDup (cmd.removeDuplicates s) ∧
  (∀ x, x ∈ cmd.removeDuplicates s ↔ x ∈ s) ∧
  (length (cmd.removeDuplicates s) ≤ length s)%nat ∧
  (NoDup s → cmd.removeDuplicates s ≡ₚ s) ∧
  (cmd.removeDuplicates s = [] ↔ s = []) ∧
  cmd.removeDuplicates (cmd.removeDuplicates s) ≡ₚ cmd.removeDuplicates s.
Proof.
  split; [apply NoDup_removeDuplicates|].
  split; [apply elem_of_removeDuplicates|]. split; [|split; [|split]].
  - apply submseteq_length, NoDup_submseteq; [apply NoDup_removeDuplicates|].
    intros x. by rewrite elem_of_removeDuplicates.
  - intros Hs. unfold cmd.removeDuplicates. by apply elements_list_to_set.
  - split.
    + intros He. destruct s as [|x s]; [reflexivity|].
      assert (x ∈ cmd.removeDuplicates (x :: s)) as Hx
        by (apply elem_of_removeDuplicates, list_elem_of_here).
      rewrite He in Hx. by apply elem_of_nil in Hx.
    + intros ->. reflexivity.
  - unfold cmd.removeDuplicates at 1.
    apply elements_list_to_set, NoDup_removeDuplicates.
Qed.

Example removeDuplicates_sample :
  cmd.removeDuplicates ["/k/a"; ""; "/k/b"; "/k/a"; ""] ≡ₚ [""; "/k/a"; "/k/b"].
Proof.
  apply NoDup_Permutation.
  - apply NoDup_removeDuplicates.
  - repeat (constructor; [rewrite ?elem_of_cons, elem_of_nil; intuition discriminate|]).
    constructor.
  - intros x. rewrite elem_of_removeDuplicates.
    rewrite !elem_of_cons, !elem_of_nil. tauto.
Qed.

Section KubeEnvVar.
Variable kubeConfig : string.
Variable configs : list string.
Variable expand : World → string → string + error.
Variable glob : World → string → list string.
Variable map_range : list string → list string.

Lemma glob_configs_eq patterns acc w :
  cmd.glob_configs expand glob patterns acc w
  = (Returned (acc ++ cmd_globbed expand glob w patterns)%list, w).
Proof.
  revert acc. induction patterns as [|path rest IH]; intros acc; simpl.
  - unfold ret, cmd_globbed. simpl. by rewrite app_nil_r.
  - unfold bind, cmd.Expand, cmd.Glob. rewrite IH. unfold cmd_globbed. simpl.
    by rewrite <- app_assoc.
Qed.

Lemma setupKubeEnvVar_eq w :
  cmd.setupKubeEnvVar kubeConfig configs expand glob map_range w
  = if IsActive (environ w) then (Returned None, w)
    else
      match expand w kubeConfig with
      | inr e => (Returned (Some e), w)
      | inl cfg =>
          match expand w (os_Getenv (environ w) EnvVarConfig) with
          | inr e => (Returned (Some e), w)
          | inl kConfig =>
              let value :=
                strings_Join
                  (map_range
                     (cmd.removeDuplicates
                        ([cfg; kConfig] ++ cmd_globbed expand glob w configs))) ":" in
              if has_nul value
              then (Returned (Some (Errno "setenv")),
                    log (EvSetenv EnvVarConfig value) w)
              else (Returned None,
                    log (EvSetenv EnvVarConfig value)
                      (with_environ (<[EnvVarConfig := value]> (environ w)) w))
          end
      end.
Proof.
  unfold cmd.setupKubeEnvVar, bind at 1, syscall_Environ.
  destruct (IsActive (environ w)); [reflexivity|]. simpl.
  unfold bind at 1, cmd.Expand.
  destruct (expand w kubeConfig) as [cfg|e]; [|reflexivity].
  rewrite Getenv_bind. unfold bind at 1.
  destruct (expand w (os_Getenv (environ w) EnvVarConfig)) as [kConfig|e];
    [|reflexivity].
  rewrite (bind_Returned _ _ _ _ _ (glob_configs_eq configs [cfg; kConfig] w)).
  rewrite rewrap. unfold os_Setenv. cbv zeta.
  by destruct (has_nul _).
Qed.

(** X15: [setupKubeEnvVar] never touches a file and always returns.  Inside
    a session it does nothing at all, so [KUBECONFIG] keeps naming the session
    file.  Outside a session, if the [kubeConfig] setting or the value of
    [KUBECONFIG] does not expand, it returns that error and changes nothing;
    otherwise its one system call sets [KUBECONFIG] to the colon-joined list
    of the two expanded paths and the files the patterns match, each of them
    once, in whatever order the iteration over the map yields them in this
    run, unless that value holds a NUL byte, which is an error that leaves
    the environment as it was. *)
Theorem setupKubeEnvVar_outcomes (w : World) :
  (∀ l, map_range l ≡ₚ l) →
  let r := cmd.setupKubeEnvVar kubeConfig configs expand glob map_range w in
  let current := os_Getenv (environ w) EnvVarConfig in
  files r.2 = files w ∧
  (∃ err, r.1 = Returned err) ∧
  (IsActive (environ w) = true → r = (Returned None, w)) ∧
  (IsActive (environ w) = false →
   (∀ e, expand w kubeConfig = inr e → r = (Returned (Some e), w)) ∧
   (∀ cfg e, expand w kubeConfig = inl cfg → expand w current = inr e →
             r = (Returned (Some e), w)) ∧
   (∀ cfg kConfig,
      expand w kubeConfig = inl cfg → expand w current = inl kConfig →
      let found := ([cfg; kConfig] ++ cmd_globbed expand glob w configs)%list in
      ∃ all, all ≡ₚ cmd.removeDuplicates found ∧
        let value := strings_Join all ":" in
        NoDup all ∧ (∀ x, x ∈ all ↔ x ∈ found) ∧
        trace r.2 = (trace w ++ [EvSetenv EnvVarConfig value])%list ∧
        (has_nul value = false →
         r.1 = Returned None ∧ environ r.2 = <[EnvVarConfig := value]> (environ w)) ∧
        (has_nul value = true →
         r.1 = Returned (Some (Errno "setenv")) ∧ environ r.2 = environ w))).
Proof.
  intros Hperm. cbv zeta. rewrite setupKubeEnvVar_eq.
  destruct (IsActive (environ w)) eqn:Ha.
  { split; [reflexivity|]. split; [by eexists|]. split; [done | intros [=]]. }
  destruct (expand w kubeConfig) as [cfg|e] eqn:Hc.
  2:{ split; [reflexivity|]. split; [by eexists|]. split; [intros [=]|].
      intros _. split; [by intros ? [= ->]|]. split; [by intros ? ? [=]|].
      by intros ? ? [=]. }
  destruct (expand w (os_Getenv (environ w) EnvVarConfig)) as [kConfig|e] eqn:Hk.
  2:{ split; [reflexivity|]. split; [by eexists|]. split; [intros [=]|].
      intros _. split; [by intros ? [=]|]. split; [by intros ? ? _ [= ->]|].
      by intros ? ? _ [=]. }
  cbv zeta.
  set (all := map_range (cmd.removeDuplicates
                           ([cfg; kConfig] ++ cmd_globbed expand glob w configs))).
  set (value := strings_Join all ":").
  assert (∀ r : Outcome (option error) * World,
            r = (if has_nul value
                 then (Returned (Some (Errno "setenv")),
                       log (EvSetenv EnvVarConfig value) w)
                 else (Returned None,
                       log (EvSetenv EnvVarConfig value)
                         (with_environ (<[EnvVarConfig := value]> (environ w)) w))) →
            files r.2 = files w ∧ (∃ err, r.1 = Returned err) ∧
            trace r.2 = (trace w ++ [EvSetenv EnvVarConfig value])%list ∧
            (has_nul value = false →
             r.1 = Returned None ∧ environ r.2 = <[EnvVarConfig := value]> (environ w)) ∧
            (has_nul value = true →
             r.1 = Returned (Some (Errno "setenv")) ∧ environ r.2 = environ w))
    as Hcases.
  { intros r ->. destruct (has_nul value); simpl.
    - split; [reflexivity|]. split; [by eexists|]. split; [reflexivity|].
      split; [intros [=] | by split].
    - split; [reflexivity|]. split; [by eexists|]. split; [reflexivity|].
      split; [by split | intros [=]]. }
  destruct (Hcases _ eq_refl) as (Hf & Hr & Ht & Hok & Hbad).
  split; [exact Hf|]. split; [exact Hr|]. split; [intros [=]|]. intros _.
  split; [by intros ? [=]|]. split; [by intros ? ? _ [=]|].
  intros ? ? [= <-] [= <-]. exists all.
  split; [apply Hperm|].
  split; [unfold all; rewrite (Hperm _); apply NoDup_removeDuplicates|].
  split.
  { intros x. unfold all. rewrite (Hperm _). apply elem_of_removeDuplicates. }
  by split; [|split].
Qed.
End KubeEnvVar.

Lemma setupKubeEnvVar_outcomes_witness :
  (∀ l : list string, reverse l ≡ₚ l) ∧
  files (cmd.setupKubeEnvVar "/k/a" [] (λ _ s, inl s) (λ _ _, []) reverse
           plain_world).2
  = files plain_world.
Proof.
  split; [apply reverse_Permutation|].
  exact (proj1 (setupKubeEnvVar_outcomes "/k/a" [] (λ _ s, inl s) (λ _ _, [])
                  reverse plain_world reverse_Permutation)).
Defined.

(** With nothing configured and [KUBECONFIG] unset, the two empty paths
    collapse into one and [KUBECONFIG] is set to the empty string; inside a
    session nothing happens. *)
Example setupKubeEnvVar_nothing_configured :
  let setup := cmd.setupKubeEnvVar "" [] (λ _ s, inl s) (λ _ _, []) (λ l, l) in
  environ (setup fresh_world).2 !! "KUBECONFIG" = Some "" ∧
  trace (setup fresh_world).2 = [EvSetenv "KUBECONFIG" ""] ∧
  setup session_world = (Returned None, session_world).
Proof. cbv zeta. split; [|split]; vm_compute; reflexivity. Qed.

(** Two runs with the same two configs can set [KUBECONFIG] differently:
    the order is that of the iteration over the map. *)
Example setupKubeEnvVar_two_orders :
  let setup order := cmd.setupKubeEnvVar "/k/a" [] (λ _ s, inl s) (λ _ _, []) order in
  let one := environ (setup (λ l, l) plain_world).2 !! "KUBECONFIG" in
  let other := environ (setup reverse plain_world).2 !! "KUBECONFIG" in
  one ≠ other ∧
  (one = Some "/k/a:/home/u/.kube/config" ∨ one = Some "/home/u/.kube/config:/k/a").
Proof.
  cbv zeta. split.
  - vm_compute. discriminate.
  - vm_compute. (right; reflexivity) || (left; reflexivity).
Qed.
